(** * Masterminds/httputil: the route resolver and the Basic-Auth header parser

    A shallow embedding of [Resolver.Resolve], [Resolver.ResolvePath] and
    [Resolver.subtreeMatch] (package httputil) and of [parseBasicString],
    [BasicAuth.Authenticate], [NewBasicHTTPAuth], [HTTPAuth.Authenticate]
    and [sendUnauthorized] (package auth), together with the parts of the
    Go standard library they call: [strings], [unicode], [unicode/utf8],
    [path.Match] and [encoding/base64].  The interfaces [AuthN] and
    [UserPasswordLookup] are records of functions; of a request the code
    reads one header, and what it does to the response is the list of the
    calls it makes on it.

    Go strings are byte sequences; they are modelled by [string], whose
    characters ([ascii]) are the bytes.  Lengths and counts are [nat] (a Go
    [int] holds every length of a string that fits in memory); the count
    argument of [SplitN] and [Replace], which may be negative, is a [Z].

    A call either returns or panics ([Go.outcome]).  The standard library
    is modelled as it stands in current Go releases: [strings.genSplit]
    allocates [min(n, len(s)+1)] cells, and [path.Match] goes on checking
    the syntax of a pattern after the match has failed.  Loops whose number
    of rounds is bounded by a length count their rounds down from that
    length; modules [rounds_facts] and [trim_facts] show the count never
    runs out. *)

From Stdlib Require Import ZArith Bool List Ascii String Lia DecimalString.
Import ListNotations.

Open Scope bool_scope.
Open Scope string_scope.
Open Scope nat_scope.

(** ** Go run-time: panics and slices *)

Module Go.

(** The two run-time panics the modelled code can raise. *)
Inductive panic : Type :=
| SliceBoundsOutOfRange (high capacity : nat)
| IndexOutOfRange (index length : nat).

(** What a call does: it returns a value or it panics. *)
Inductive outcome (A : Type) : Type :=
| Returns (a : A)
| Panics (p : panic).
Arguments Returns {A} a.
Arguments Panics {A} p.

(** Go's [error] values that occur in the two packages.  A nil error is
    [None] of [option error]. *)
Inductive error : Type :=
| ErrRouteNotFound                 (* errors.New("route not found") *)
| ErrBadPattern                    (* path.ErrBadPattern *)
| Errorf (msg : string)            (* fmt.Errorf / errors.New with this text *)
| CorruptInputError (offset : nat) (* base64.CorruptInputError *).

Definition isNil (err : option error) : bool :=
  match err with None => true | Some _ => false end.

(** [strconv.Itoa] on a length or an offset. *)
Definition Itoa (n : nat) : string := NilEmpty.string_of_uint (Nat.to_uint n).

(** The method [Error()] of these values: the text of the error. *)
Definition Error (e : error) : string :=
  match e with
  | ErrRouteNotFound => "route not found"
  | ErrBadPattern => "syntax error in pattern"
  | Errorf msg => msg
  | CorruptInputError offset =>
      "illegal base64 data at input byte " ++ Itoa offset
  end.

(** A slice of strings whose window starts at the first cell of its backing
    array: [backing] is the whole array (its length is the capacity) and
    [len] the length of the slice. *)
Record slice : Type := mkSlice { backing : list string; len : nat }.

Definition cap (s : slice) : nat := List.length (backing s).

(** [s[0:high]]: the upper bound of a slice expression is checked against
    the capacity, not the length. *)
Definition slice_to (s : slice) (high : nat) : outcome (list string) :=
  if high <=? cap s then Returns (firstn high (backing s))
  else Panics (SliceBoundsOutOfRange high (cap s)).

(** [s[i]]: an index expression is checked against the length. *)
Definition index (s : slice) (i : nat) : outcome string :=
  if i <? len s then Returns (nth i (backing s) "")
  else Panics (IndexOutOfRange i (len s)).

(** String slice expressions [s[n:]] and [s[:n]], used where the bound is
    within the string. *)
Fixpoint from (n : nat) (s : string) : string :=
  match n, s with
  | S n', String _ s' => from n' s'
  | _, _ => s
  end.

Fixpoint to (n : nat) (s : string) : string :=
  match n, s with
  | S n', String c s' => String c (to n' s')
  | _, _ => ""
  end.

Arguments from : simpl nomatch.
Arguments to : simpl nomatch.

End Go.
Import Go.

(** ** Package unicode/utf8 *)

Module utf8.

Open Scope Z_scope.

Definition byte_val (c : ascii) : Z := Z.of_N (N_of_ascii c).

Definition RuneError : Z := 65533. (* U+FFFD *)

(** The classification table [first]: [xx] invalid, [as_] ASCII, otherwise
    the low three bits are the size and the high four bits index
    [acceptRanges]. *)
Definition xx : Z := 241.  (* 0xF1 *)
Definition as_ : Z := 240. (* 0xF0 *)

Definition first (b : Z) : Z :=
  if b <? 128 then as_          (* 0x00-0x7F *)
  else if b <? 194 then xx      (* 0x80-0xC1 *)
  else if b <? 224 then 2       (* 0xC2-0xDF: s1 = 0x02 *)
  else if b =? 224 then 19      (* 0xE0:      s2 = 0x13 *)
  else if b <? 237 then 3       (* 0xE1-0xEC: s3 = 0x03 *)
  else if b =? 237 then 35      (* 0xED:      s4 = 0x23 *)
  else if b <? 240 then 3       (* 0xEE-0xEF: s3 *)
  else if b =? 240 then 52      (* 0xF0:      s5 = 0x34 *)
  else if b <? 244 then 4       (* 0xF1-0xF3: s6 = 0x04 *)
  else if b =? 244 then 68      (* 0xF4:      s7 = 0x44 *)
  else xx.                      (* 0xF5-0xFF *)

Definition locb : Z := 128. (* 0x80 *)
Definition hicb : Z := 191. (* 0xBF *)

Definition acceptRanges (i : Z) : Z * Z :=
  if i =? 0 then (locb, hicb)
  else if i =? 1 then (160, hicb)
  else if i =? 2 then (locb, 159)
  else if i =? 3 then (144, hicb)
  else (locb, 143).

Definition maskx : Z := 63.
Definition mask2 : Z := 31.
Definition mask3 : Z := 15.
Definition mask4 : Z := 7.

(** [DecodeRuneInString(s)]: the first rune of [s] and its width in bytes;
    [(RuneError, 0)] on the empty string, [(RuneError, 1)] on an invalid
    encoding. *)
Definition DecodeRuneInString (s : string) : Z * nat :=
  match s with
  | "" => (RuneError, 0%nat)
  | String c0 t =>
      let s0 := byte_val c0 in
      let x := first s0 in
      if x >=? as_ then ((if x =? xx then RuneError else s0), 1%nat)
      else
        let sz := Z.land x 7 in
        let '(lo, hi) := acceptRanges (Z.shiftr x 4) in
        if Z.of_nat (String.length s) <? sz then (RuneError, 1%nat)
        else match t with
        | "" => (RuneError, 1%nat)
        | String c1 t1 =>
            let s1 := byte_val c1 in
            if (s1 <? lo) || (hi <? s1) then (RuneError, 1%nat)
            else if sz <=? 2 then
              (Z.lor (Z.shiftl (Z.land s0 mask2) 6) (Z.land s1 maskx), 2%nat)
            else match t1 with
            | "" => (RuneError, 1%nat)
            | String c2 t2 =>
                let s2 := byte_val c2 in
                if (s2 <? locb) || (hicb <? s2) then (RuneError, 1%nat)
                else if sz <=? 3 then
                  (Z.lor (Z.lor (Z.shiftl (Z.land s0 mask3) 12)
                                (Z.shiftl (Z.land s1 maskx) 6))
                         (Z.land s2 maskx), 3%nat)
                else match t2 with
                | "" => (RuneError, 1%nat)
                | String c3 _ =>
                    let s3 := byte_val c3 in
                    if (s3 <? locb) || (hicb <? s3) then (RuneError, 1%nat)
                    else
                      (Z.lor (Z.lor (Z.lor (Z.shiftl (Z.land s0 mask4) 18)
                                           (Z.shiftl (Z.land s1 maskx) 12))
                                    (Z.shiftl (Z.land s2 maskx) 6))
                             (Z.land s3 maskx), 4%nat)
                end
            end
        end
  end.

Close Scope Z_scope.

(** [RuneCountInString(s)]: one rune per decoding step; a step takes at
    least one byte, so [length s] steps reach the end. *)
Fixpoint RuneCount_loop (steps : nat) (s : string) : nat :=
  match steps, s with
  | S steps', String _ _ =>
      S (RuneCount_loop steps' (from (snd (DecodeRuneInString s)) s))
  | _, _ => 0
  end.

Definition RuneCountInString (s : string) : nat :=
  RuneCount_loop (String.length s) s.

Definition RuneSelf : Z := 128.
Definition UTFMax : nat := 4.

(** [RuneStart(b)]: [b] is not a continuation byte. *)
Definition RuneStart (b : ascii) : bool :=
  negb (Z.land (byte_val b) 192 =? 128)%Z.

(** The backward scan of [DecodeLastRuneInString]: from [start] down to
    [lim], stop at a byte that could start a rune.  [start] may end below
    zero. *)
Fixpoint scanBack (steps : nat) (s : string) (start lim : Z) : Z :=
  match steps with
  | 0 => start
  | S steps' =>
      if (start <? lim)%Z then start
      else
        match String.get (Z.to_nat start) s with
        | Some b =>
            if RuneStart b then start
            else scanBack steps' s (start - 1)%Z lim
        | None => start
        end
  end.

(** [DecodeLastRuneInString(s)]: the last rune of [s] and its width. *)
Definition DecodeLastRuneInString (s : string) : Z * nat :=
  let end_ := String.length s in
  match String.get (end_ - 1) s with
  | None => (RuneError, 0)
  | Some last =>
      let r := byte_val last in
      if (r <? RuneSelf)%Z then (r, 1)
      else
        let lim := Z.of_nat (end_ - UTFMax) in
        let start := scanBack UTFMax s (Z.of_nat end_ - 2)%Z lim in
        let start := if (start <? 0)%Z then 0 else Z.to_nat start in
        let '(r, size) := DecodeRuneInString (from start s) in
        if negb (start + size =? end_) then (RuneError, 1) else (r, size)
  end.

End utf8.

(** ** Package unicode: [IsSpace] *)

Module unicode.

Open Scope Z_scope.

(** [IsSpace(r)]: the Latin-1 spaces, and the White_Space code points
    beyond Latin-1. *)
Definition IsSpace (r : Z) : bool :=
  if r <=? 255 then
    (r =? 9) || (r =? 10) || (r =? 11) || (r =? 12) || (r =? 13)
    || (r =? 32) || (r =? 133) || (r =? 160)
  else
    (r =? 5760)                          (* U+1680 *)
    || ((8192 <=? r) && (r <=? 8202))    (* U+2000 - U+200A *)
    || (r =? 8232) || (r =? 8233)        (* U+2028, U+2029 *)
    || (r =? 8239) || (r =? 8287)        (* U+202F, U+205F *)
    || (r =? 12288).                     (* U+3000 *)

Close Scope Z_scope.

End unicode.

(** ** Package strings *)

Module strings.

(** [HasPrefix(s, prefix)] *)
Fixpoint HasPrefix (s prefix : string) {struct prefix} : bool :=
  match prefix, s with
  | "", _ => true
  | String p prefix', String c s' => Ascii.eqb c p && HasPrefix s' prefix'
  | String _ _, "" => false
  end.

(** [HasSuffix(s, suffix)]:
    [len(s) >= len(suffix) && s[len(s)-len(suffix):] == suffix] *)
Definition HasSuffix (s suffix : string) : bool :=
  (length suffix <=? length s)
  && String.eqb (from (length s - length suffix) s) suffix.

(** [Index(s, substr)]; [None] is Go's -1. *)
Fixpoint Index (s substr : string) : option nat :=
  if HasPrefix s substr then Some 0
  else match s with
       | "" => None
       | String _ s' => option_map S (Index s' substr)
       end.

(** [bytealg.CountString(s, c)]: the number of bytes of [s] equal to [c]. *)
Fixpoint CountByte (s : string) (c : ascii) : nat :=
  match s with
  | "" => 0
  | String d s' => (if Ascii.eqb d c then 1 else 0) + CountByte s' c
  end.

(** The general loop of [Count]: find, count, continue after the match.
    Every round drops at least one byte, so [length s] rounds are enough. *)
Fixpoint Count_loop (rounds : nat) (s substr : string) : nat :=
  match rounds with
  | 0 => 0
  | S rounds' =>
      match Index s substr with
      | None => 0
      | Some i => S (Count_loop rounds' (from (i + length substr) s) substr)
      end
  end.

(** [Count(s, substr)]: the number of non-overlapping instances of
    [substr] in [s]; with the special cases of the empty and of the one-byte
    [substr]. *)
Definition Count (s substr : string) : nat :=
  match substr with
  | "" => utf8.RuneCountInString s + 1
  | String c "" => CountByte s c
  | _ => Count_loop (length s) s substr
  end.

(** [explode(s, n)]: [s] cut into UTF-8 sequences, at most [n] of them. *)
Fixpoint explode_loop (rounds : nat) (s : string) : list string :=
  match rounds with
  | 0 => [s]
  | S rounds' =>
      let size := snd (utf8.DecodeRuneInString s) in
      to size s :: explode_loop rounds' (from size s)
  end.

Definition explode (s : string) (n : Z) : slice :=
  let l := utf8.RuneCountInString s in
  let n := if (n <? 0)%Z || (Z.of_nat l <? n)%Z then l else Z.to_nat n in
  match n with
  | 0 => mkSlice [] 0
  | S rounds => mkSlice (explode_loop rounds s) n
  end.

(** The loop of [genSplit]: at most [rounds] cuts, the rest of the string
    is the last piece. *)
Fixpoint genSplit_loop (rounds : nat) (s sep : string) (sepSave : nat)
  : list string :=
  match rounds with
  | 0 => [s]
  | S rounds' =>
      match Index s sep with
      | None => [s]
      | Some m =>
          to (m + sepSave) s
          :: genSplit_loop rounds' (from (m + length sep) s) sep sepSave
      end
  end.

(** [genSplit(s, sep, sepSave, n)].  The array [a] is allocated with
    [n] cells after [n] has been clamped to [len(s)+1]; the result is
    [a[:i+1]], so the cells after the last piece are part of the capacity
    and hold the zero value. *)
Definition genSplit (s sep : string) (sepSave : nat) (n : Z) : slice :=
  if (n =? 0)%Z then mkSlice [] 0
  else if String.eqb sep "" then explode s n
  else
    let n := if (n <? 0)%Z then Count s sep + 1 else Z.to_nat n in
    let n := if length s + 1 <? n then length s + 1 else n in
    let pieces := genSplit_loop (n - 1) s sep sepSave in
    mkSlice (pieces ++ repeat "" (n - List.length pieces))
            (List.length pieces).

Definition SplitN (s sep : string) (n : Z) : slice := genSplit s sep 0 n.

Definition Split (s sep : string) : slice := genSplit s sep 0 (-1).

(** [Join(elems, sep)] *)
Fixpoint Join (elems : list string) (sep : string) : string :=
  match elems with
  | [] => ""
  | [e] => e
  | e :: rest => e ++ sep ++ Join rest sep
  end.

(** The loop of [Replace]: [rest] is [s[start:]]; [first] tells the first
    round, where an empty [old] matches at the very beginning. *)
Fixpoint Replace_loop (rounds : nat) (first : bool) (rest old new : string)
  : string :=
  match rounds with
  | 0 => rest
  | S rounds' =>
      match old with
      | "" =>
          let j := if first then 0
                   else snd (utf8.DecodeRuneInString rest) in
          to j rest ++ new ++ Replace_loop rounds' false (from j rest) old new
      | _ =>
          match Index rest old with
          | None => rest
          | Some j =>
              to j rest ++ new
              ++ Replace_loop rounds' false (from (j + length old) rest)
                              old new
          end
      end
  end.

(** [Replace(s, old, new, n)]: the first [n] instances of [old] replaced
    by [new]; all of them when [n < 0]. *)
Definition Replace (s old new : string) (n : Z) : string :=
  if String.eqb old new || (n =? 0)%Z then s
  else
    let m := Count s old in
    if m =? 0 then s
    else
      let n := if (n <? 0)%Z || (Z.of_nat m <? n)%Z then m else Z.to_nat n in
      Replace_loop n true s old new.

(** [Contains(s, substr)]: [Index(s, substr) >= 0]. *)
Definition Contains (s substr : string) : bool :=
  match Index s substr with Some _ => true | None => false end.

(** [asciiSpace]: tab, newline, vertical tab, form feed, return, space. *)
Definition asciiSpace (c : ascii) : bool :=
  let b := utf8.byte_val c in
  ((9 <=? b) && (b <=? 13) || (b =? 32))%Z.

Definition isASCII (c : ascii) : bool := (utf8.byte_val c <? utf8.RuneSelf)%Z.

(** [TrimLeftFunc(s, f)]: [s] from its first rune that does not satisfy
    [f]; a round takes one rune. *)
Fixpoint TrimLeftFunc_loop (rounds : nat) (s : string) (f : Z -> bool)
  : string :=
  match rounds, s with
  | S rounds', String _ _ =>
      let '(r, n) := utf8.DecodeRuneInString s in
      if f r then TrimLeftFunc_loop rounds' (from n s) f else s
  | _, _ => ""
  end.

Definition TrimLeftFunc (s : string) (f : Z -> bool) : string :=
  TrimLeftFunc_loop (length s) s f.

(** [lastIndexFunc(s, f, false)]: the index of the last rune of [s[0:i]]
    that does not satisfy [f]; [None] is -1. *)
Fixpoint lastIndexFunc_loop (rounds : nat) (s : string) (i : nat)
                            (f : Z -> bool) : option nat :=
  match rounds with
  | 0 => None
  | S rounds' =>
      if i =? 0 then None
      else
        let '(r, size) := utf8.DecodeLastRuneInString (to i s) in
        let i := i - size in
        if negb (f r) then Some i else lastIndexFunc_loop rounds' s i f
  end.

(** [TrimRightFunc(s, f)] *)
Definition TrimRightFunc (s : string) (f : Z -> bool) : string :=
  match lastIndexFunc_loop (length s) s (length s) f with
  | Some i =>
      match String.get i s with
      | Some c =>
          if isASCII c then to (i + 1) s
          else to (i + snd (utf8.DecodeRuneInString (from i s))) s
      | None => to (i + 1) s
      end
  | None => ""
  end.

Definition TrimFunc (s : string) (f : Z -> bool) : string :=
  TrimRightFunc (TrimLeftFunc s f) f.

(** The two loops of [TrimSpace].  The first looks for the first byte that
    is not an ASCII space and gives [s[start:]], telling whether that byte
    is outside ASCII; the second does the same from the end, on [n] bytes
    of [t = s[start:]]. *)
Fixpoint TrimSpace_start (s : string) : string * bool :=
  match s with
  | "" => ("", false)
  | String c s' =>
      if negb (isASCII c) then (s, true)
      else if asciiSpace c then TrimSpace_start s'
      else (s, false)
  end.

Fixpoint TrimSpace_stop (n : nat) (t : string) : string :=
  match n with
  | 0 => ""
  | S n' =>
      match String.get n' t with
      | Some c =>
          if negb (isASCII c) then TrimRightFunc (to n t) unicode.IsSpace
          else if asciiSpace c then TrimSpace_stop n' t
          else to n t
      | None => to n t
      end
  end.

(** [TrimSpace(s)]: [s] without its leading and trailing white space. *)
Definition TrimSpace (s : string) : string :=
  let '(t, nonASCII) := TrimSpace_start s in
  if nonASCII then TrimFunc t unicode.IsSpace
  else TrimSpace_stop (length t) t.

End strings.

(** ** Package path: [Match] *)

Module path.

Import strings.

Definition isByte (c : ascii) (b : string) : bool := String.eqb (String c "") b.

(** [getEsc(chunk)]: a possibly escaped character of a character class. *)
Definition getEsc (chunk : string) : Z * string * option error :=
  match chunk with
  | "" => (0%Z, "", Some ErrBadPattern)
  | String c rest =>
      if isByte c "-" || isByte c "]" then (0%Z, "", Some ErrBadPattern)
      else if isByte c "\" && (length rest =? 0) then
        (0%Z, "", Some ErrBadPattern)
      else
        let chunk := if isByte c "\" then rest else chunk in
        let '(r, n) := utf8.DecodeRuneInString chunk in
        let err := if (r =? utf8.RuneError)%Z && (n =? 1)
                   then Some ErrBadPattern else None in
        let nchunk := from n chunk in
        let err := if length nchunk =? 0 then Some ErrBadPattern else err in
        (r, nchunk, err)
  end.

(** The loop over the ranges of a character class, up to the closing
    bracket: it gives the chunk after the class and whether [r] is in one
    of the ranges, or the syntax error.  Every round takes at least one
    byte of [chunk]. *)
Fixpoint classRanges (rounds : nat) (chunk : string) (r : Z)
                     (matched : bool) (nrange : nat)
  : error + (string * bool) :=
  match rounds with
  | 0 => inl ErrBadPattern
  | S rounds' =>
      if HasPrefix chunk "]" && (0 <? nrange) then inr (from 1 chunk, matched)
      else
        let '(lo, chunk, err) := getEsc chunk in
        match err with
        | Some e => inl e
        | None =>
            let '(hi, chunk, err) :=
              if HasPrefix chunk "-" then getEsc (from 1 chunk)
              else (lo, chunk, None) in
            match err with
            | Some e => inl e
            | None =>
                let matched :=
                  if (lo <=? r)%Z && (r <=? hi)%Z then true else matched in
                classRanges rounds' chunk r matched (S nrange)
            end
        end
  end.

(** The loop of [matchChunk]: [failed] records that the match has failed;
    the loop then goes on over [chunk] to check its syntax, no longer
    reading [s]. *)
Fixpoint matchChunk_loop (rounds : nat) (chunk s : string) (failed : bool)
  : string * bool * option error :=
  match chunk with
  | "" => if failed then ("", false, None) else (s, true, None)
  | String c chunk' =>
      match rounds with
      | 0 => ("", false, Some ErrBadPattern)
      | S rounds' =>
          let failed :=
            if negb failed && (length s =? 0) then true else failed in
          if isByte c "[" then
            let '(r, s) :=
              if negb failed then
                let '(r, n) := utf8.DecodeRuneInString s in (r, from n s)
              else (0%Z, s) in
            let '(negated, chunk) :=
              if HasPrefix chunk' "^" then (true, from 1 chunk')
              else (false, chunk') in
            match classRanges (S (length chunk)) chunk r false 0 with
            | inl e => ("", false, Some e)
            | inr (chunk, matched) =>
                let failed :=
                  if Bool.eqb matched negated then true else failed in
                matchChunk_loop rounds' chunk s failed
            end
          else if isByte c "?" then
            if negb failed then
              let failed := if HasPrefix s "/" then true else failed in
              let '(_, n) := utf8.DecodeRuneInString s in
              matchChunk_loop rounds' chunk' (from n s) failed
            else matchChunk_loop rounds' chunk' s failed
          else if isByte c "\" then
            match chunk' with
            | "" => ("", false, Some ErrBadPattern)
            | String d chunk'' =>
                if negb failed then
                  let failed :=
                    if negb (HasPrefix s (String d "")) then true
                    else failed in
                  matchChunk_loop rounds' chunk'' (from 1 s) failed
                else matchChunk_loop rounds' chunk'' s failed
            end
          else
            if negb failed then
              let failed :=
                if negb (HasPrefix s (String c "")) then true else failed in
              matchChunk_loop rounds' chunk' (from 1 s) failed
            else matchChunk_loop rounds' chunk' s failed
      end
  end.

(** [matchChunk(chunk, s)]: whether [chunk] matches the beginning of [s],
    and then the remainder of [s]. *)
Definition matchChunk (chunk s : string) : string * bool * option error :=
  matchChunk_loop (length chunk) chunk s false.

(** The scan of [scanChunk], after the leading stars: the chunk goes up to
    the next star that is not inside a bracket. *)
Fixpoint scan (inrange : bool) (pattern : string) : string * string :=
  match pattern with
  | "" => ("", "")
  | String c pattern' =>
      if isByte c "\" then
        match pattern' with
        | "" => (String c "", "")
        | String d pattern'' =>
            let '(chunk, rest) := scan inrange pattern'' in
            (String c (String d chunk), rest)
        end
      else if isByte c "*" && negb inrange then ("", pattern)
      else
        let inrange :=
          if isByte c "[" then true
          else if isByte c "]" then false
          else inrange in
        let '(chunk, rest) := scan inrange pattern' in
        (String c chunk, rest)
  end.

Fixpoint skipStars (pattern : string) : bool * string :=
  match pattern with
  | String c pattern' =>
      if isByte c "*" then (true, snd (skipStars pattern'))
      else (false, pattern)
  | "" => (false, "")
  end.

(** [scanChunk(pattern)]: the next segment of the pattern, a non-star
    string possibly preceded by a star. *)
Definition scanChunk (pattern : string) : bool * string * string :=
  let '(star, pattern) := skipStars pattern in
  let '(chunk, rest) := scan false pattern in
  (star, chunk, rest).

(** The search after a star: skip [i+1] bytes of [name], never a slash. *)
Inductive starSearch : Type :=
| StarFound (t : string)
| StarError (e : error)
| StarNone.

Fixpoint starLoop (chunk pattern name : string) : starSearch :=
  match name with
  | "" => StarNone
  | String c name' =>
      if isByte c "/" then StarNone
      else
        let '(t, ok, err) := matchChunk chunk name' in
        if ok then
          if (length pattern =? 0) && (0 <? length t)
          then starLoop chunk pattern name'
          else StarFound t
        else match err with
             | Some e => StarError e
             | None => starLoop chunk pattern name'
             end
  end.

(** Before [Match] returns false with no error, it checks that the
    remainder of the pattern is syntactically valid. *)
Fixpoint checkRest (rounds : nat) (pattern : string) : bool * option error :=
  match pattern, rounds with
  | String _ _, S rounds' =>
      let '(_, chunk, pattern) := scanChunk pattern in
      match snd (matchChunk chunk "") with
      | Some e => (false, Some e)
      | None => checkRest rounds' pattern
      end
  | _, _ => (false, None)
  end.

(** The main loop of [Match]; every round takes at least one byte of the
    pattern. *)
Fixpoint Match_loop (rounds : nat) (pattern name : string)
  : bool * option error :=
  match pattern with
  | "" => (length name =? 0, None)
  | String _ _ =>
      match rounds with
      | 0 => (false, Some ErrBadPattern)
      | S rounds' =>
          let '(star, chunk, pattern) := scanChunk pattern in
          if star && (length chunk =? 0) then
            (match Index name "/" with None => true | Some _ => false end,
             None)
          else
            let '(t, ok, err) := matchChunk chunk name in
            if ok && ((length t =? 0) || (0 <? length pattern)) then
              Match_loop rounds' pattern t
            else
              match err with
              | Some e => (false, Some e)
              | None =>
                  match (if star then starLoop chunk pattern name
                         else StarNone) with
                  | StarFound t => Match_loop rounds' pattern t
                  | StarError e => (false, Some e)
                  | StarNone => checkRest (length pattern) pattern
                  end
              end
      end
  end.

(** [Match(pattern, name)] *)
Definition Match (pattern name : string) : bool * option error :=
  Match_loop (length pattern) pattern name.

End path.

(** ** Package httputil: the resolver *)

Module httputil.

(** [net/http]'s request, as far as [Resolve] reads it: [req.Method] and
    [req.URL.Path].  Pointers are taken to be non-nil. *)
Record url_URL : Type := mkURL { Path : string }.
Record Request : Type := mkRequest { Method : string; URL : url_URL }.

Record Resolver : Type := mkResolver { paths : list string }.

Definition NewResolver (paths : list string) : Resolver :=
  {| paths := paths |}.

Definition subtreeMatch (r : Resolver) (pathName pattern : string)
  : outcome (bool * option error) :=
  if String.eqb pattern "**" then Returns (true, None)
  else
    (* Find out how many slashes we have. *)
    let countSlash := strings.Count pattern "/" in
    if countSlash =? 0 then
      Returns (false, Some (Errorf ("illegal ** pattern: " ++ pattern)))
    else
      let parts := strings.SplitN pathName "/" (Z.of_nat countSlash + 1) in
      match slice_to parts countSlash with
      | Panics p => Panics p
      | Returns firstParts =>
          let prefix := strings.Join firstParts "/" in
          let subpattern := strings.Replace pattern "/**" "" (-1) in
          let '(ok, err) := path.Match subpattern prefix in
          if ok && isNil err then Returns (true, None)
          else match err with
               | Some e => Returns (false, Some e)
               | None => Returns (false, None)
               end
      end.

(** The loop of [ResolvePath] over [r.paths]. *)
Fixpoint ResolvePath_loop (r : Resolver) (patterns : list string)
                          (pathName : string)
  : outcome (string * option error) :=
  match patterns with
  | [] => Returns (pathName, Some ErrRouteNotFound)
  | pattern :: rest =>
      let regular :=
        let '(ok, err) := path.Match pattern pathName in
        if ok && isNil err then Returns (pattern, None)
        else match err with
             | Some e => Returns (pathName, Some e) (* Bad pattern *)
             | None => ResolvePath_loop r rest pathName
             end in
      if strings.HasSuffix pattern "**" then
        match subtreeMatch r pathName pattern with
        | Panics p => Panics p
        | Returns (ok, _) =>
            if ok then Returns (pattern, None)
            else regular (* Fall through to the regular pattern matcher *)
        end
      else regular
  end.

Definition ResolvePath (r : Resolver) (pathName : string)
  : outcome (string * option error) :=
  ResolvePath_loop r (paths r) pathName.

Definition Resolve (r : Resolver) (req : Request)
  : outcome (string * option error) :=
  ResolvePath r (Method req ++ " " ++ Path (URL req)).

End httputil.
Import httputil.

(** ** Package encoding/base64: [StdEncoding.DecodeString] *)

Module base64.

Open Scope Z_scope.

(** [decodeMap] of the standard alphabet; [None] is the entry 0xff. *)
Definition decodeMap (c : ascii) : option Z :=
  let b := utf8.byte_val c in
  if (65 <=? b) && (b <=? 90) then Some (b - 65)            (* A-Z *)
  else if (97 <=? b) && (b <=? 122) then Some (b - 97 + 26) (* a-z *)
  else if (48 <=? b) && (b <=? 57) then Some (b - 48 + 52)  (* 0-9 *)
  else if b =? 43 then Some 62                              (* + *)
  else if b =? 47 then Some 63                              (* / *)
  else None.

Definition isNewline (c : ascii) : bool :=
  (utf8.byte_val c =? 10) || (utf8.byte_val c =? 13).

Definition isPad (c : ascii) : bool := utf8.byte_val c =? 61.

Definition byte_of (z : Z) : ascii := ascii_of_N (Z.to_N (z mod 256)).

(** The conversion of four 6-bit digits into three bytes, of which
    [dlen - 1] are kept. *)
Definition assemble (dbuf : list Z) (dlen : nat) : string :=
  let d i := nth i dbuf 0 in
  let val := Z.lor (Z.lor (Z.lor (Z.shiftl (d 0%nat) 18)
                                 (Z.shiftl (d 1%nat) 12))
                          (Z.shiftl (d 2%nat) 6)) (d 3%nat) in
  let b0 := byte_of (Z.shiftr val 16) in
  let b1 := byte_of (Z.shiftr val 8) in
  let b2 := byte_of val in
  match dlen with
  | 4%nat => String b0 (String b1 (String b2 ""))
  | 3%nat => String b0 (String b1 "")
  | 2%nat => String b0 ""
  | _ => ""
  end.

Close Scope Z_scope.

Fixpoint skipNewlines (src : string) (si : nat) : string * nat :=
  match src with
  | String c rest =>
      if isNewline c then skipNewlines rest (S si) else (src, si)
  | "" => (src, si)
  end.

(** [decodeQuantum]: [src] is what is left of the input from position
    [si], [j] the number of digits of the quantum read so far, [dbuf] those
    digits and [srclen] the length of the whole input.  It gives what is
    left of the input, the new position, the decoded bytes and the error. *)
Fixpoint decodeQuantum (src : string) (si j : nat) (dbuf : list Z)
                       (srclen : nat)
  : string * nat * string * option error :=
  match src with
  | "" =>
      if j =? 0 then ("", si, "", None)
      else ("", si, "", Some (CorruptInputError (si - j)))
  | String c rest =>
      let si := S si in
      match decodeMap c with
      | Some out =>
          let dbuf := (dbuf ++ [out])%list in
          if S j =? 4 then (rest, si, assemble dbuf 4, None)
          else decodeQuantum rest si (S j) dbuf srclen
      | None =>
          if isNewline c then decodeQuantum rest si j dbuf srclen
          else if negb (isPad c) then
            (rest, si, "", Some (CorruptInputError (si - 1)))
          else if j <? 2 then
            (* incorrect padding *)
            (rest, si, "", Some (CorruptInputError (si - 1)))
          else
            let second :=
              if j =? 2 then
                (* "==" is expected, the first "=" is already consumed *)
                let '(rest, si) := skipNewlines rest si in
                match rest with
                | "" => inl (rest, si, CorruptInputError srclen)
                | String c' rest' =>
                    if isPad c' then inr (rest', S si)
                    else inl (rest, si, CorruptInputError (si - 1))
                end
              else inr (rest, si) in
            match second with
            | inl (rest, si, e) => (rest, si, "", Some e)
            | inr (rest, si) =>
                let '(rest, si) := skipNewlines rest si in
                let err := if 0 <? length rest
                           then Some (CorruptInputError si) (* garbage *)
                           else None in
                (rest, si, assemble dbuf j, err)
            end
      end
  end.

(** The loop of [Decode]: quantum after quantum until the input is used
    up or an error occurs; a quantum takes at least one byte. *)
Fixpoint Decode_loop (rounds : nat) (src : string) (si srclen : nat)
  : string * option error :=
  match rounds, src with
  | S rounds', String _ _ =>
      let '(rest, si, bytes, err) := decodeQuantum src si 0 [] srclen in
      match err with
      | Some e => (bytes, Some e)
      | None =>
          let '(more, err) := Decode_loop rounds' rest si srclen in
          (bytes ++ more, err)
      end
  | _, _ => ("", None)
  end.

(** [StdEncoding.DecodeString(s)]: the decoded bytes and the error. *)
Definition DecodeString (s : string) : string * option error :=
  Decode_loop (length s) s 0 (length s).

End base64.

(** ** Package auth: the Basic-Auth header parser *)

Module auth.

(** Sequencing of calls that may panic. *)
Definition bind {A B : Type} (c : outcome A) (k : A -> outcome B)
  : outcome B :=
  match c with
  | Returns a => k a
  | Panics p => Panics p
  end.

Notation "'call' x <- c ; k" := (bind c (fun x => k))
  (at level 10, x name, c at level 100, k at level 200).

Definition parseBasicString (header : string)
  : outcome (string * string * option error) :=
  let parts := strings.Split header " " in
  let user := "" in
  let pass := "" in
  if len parts <? 2 then
    Returns (user, pass, Some (Errorf "No auth string found."))
  else
    call encoded <- index parts 1;
    let '(full, err) := base64.DecodeString encoded in
    match err with
    | Some e => Returns (user, pass, Some e)
    | None =>
        let parts := strings.SplitN full ":" 2 in
        call user <- index parts 0;
        if 0 <? len parts then
          call pass <- index parts 1;
          Returns (user, pass, None)
        else Returns (user, pass, None)
    end.

(** [UserPasswordLookup]: looks up a username and password.  An error is
    returned only if the underlying mechanism is failing; false with a nil
    error means the authentication simply failed. *)
Record UserPasswordLookup : Type :=
  { IsValid : string -> string -> bool * option error }.

(** [AuthN]: an authentication provider, taking raw Authorization data. *)
Record AuthN : Type :=
  { Authenticate : string -> outcome (bool * option error) }.

(** [BasicAuth]: the provider for HTTP Basic Auth. *)
Record BasicAuth : Type := { Users : UserPasswordLookup }.

Definition BasicAuth_Authenticate (a : BasicAuth) (data : string)
  : outcome (bool * option error) :=
  call parsed <- parseBasicString data;
  let '(user, pass, err) := parsed in
  match err with
  | Some e =>
      Returns (false,
               Some (Errorf ("Basic authentication parsing failed: "
                             ++ Error e)))
  | None => Returns (IsValid (Users a) user pass)
  end.

(** [*BasicAuth] as an [AuthN]. *)
Definition BasicAuth_AuthN (a : BasicAuth) : AuthN :=
  {| Authenticate := BasicAuth_Authenticate a |}.

(** [HTTPAuth]; the map [auths] is read only, by key. *)
Record HTTPAuth : Type :=
  { Realm : string; auths : string -> option AuthN }.

Definition NewBasicHTTPAuth (pwdb : UserPasswordLookup) : HTTPAuth :=
  {| Realm := "secret";
     auths := fun key =>
                if String.eqb key "basic"
                then Some (BasicAuth_AuthN {| Users := pwdb |})
                else None |}.

(** [net/http]'s request, as far as [HTTPAuth.Authenticate] reads it:
    [req.Header.Get]. *)
Record http_Request : Type := { Header_Get : string -> string }.

(** What the code does to the [http.ResponseWriter] it is given: the calls
    it makes, in order. *)
Inductive response_call : Type :=
| Header_Set (key value : string)       (* res.Header().Set(key, value) *)
| http_Error (error : string) (code : nat). (* http.Error(res, error, code) *)

Definition ResponseWriter : Type := list response_call.

Definition StatusUnauthorized : nat := 401.

(** The double quote of the challenge. *)
Definition quote : string := String (ascii_of_nat 34) "".

Definition sendUnauthorized (realm : string) (res : ResponseWriter)
  : ResponseWriter :=
  (res ++ [ Header_Set "WWW-Authenticate"
                       ("Basic realm=" ++ quote ++ realm ++ quote);
            http_Error "Authentication Required" StatusUnauthorized ])%list.

(** [HTTPAuth.Authenticate]: the boolean it returns and the response writer
    after the call. *)
Definition HTTPAuth_Authenticate (h : HTTPAuth) (res : ResponseWriter)
                                 (req : http_Request)
  : outcome (bool * ResponseWriter) :=
  let authz := strings.TrimSpace (Header_Get req "Authorization") in
  if (String.length authz =? 0) || negb (strings.Contains authz "Basic ")
  then Returns (false, sendUnauthorized (Realm h) res)
  else
    match auths h "basic" with
    | None => Returns (false, sendUnauthorized (Realm h) res)
    | Some authn =>
        call result <- Authenticate authn authz;
        let '(ok', _) := result in
        if negb ok' then Returns (false, sendUnauthorized (Realm h) res)
        else Returns (true, res)
    end.

End auth.
Import auth.

(** * Notions used in the statements *)

Module notions.

Import strings path.

(** [keep j s]: the text of [s] before its [(j+1)]-th slash; all of [s]
    when it has at most [j] slashes. *)
Fixpoint keep (j : nat) (s : string) : string :=
  match s with
  | "" => ""
  | String c s' =>
      if Ascii.eqb c "/" then
        match j with
        | 0 => ""
        | S j' => String c (keep j' s')
        end
      else String c (keep j s')
  end.

(** No byte of [s] is one of the glob metacharacters. *)
Fixpoint literal (s : string) : bool :=
  match s with
  | "" => true
  | String c s' =>
      negb (isByte c "*" || isByte c "?" || isByte c "[" || isByte c "\")
      && literal s'
  end.

(** What the resolver says of descriptor [D] when [p] is its only pattern:
    [p] matches [D], or [p] is passed over (no match, no error). *)
Definition matches (p D : string) : Prop :=
  ResolvePath (NewResolver [p]) D = Returns (p, None).

Definition rejects (p D : string) : Prop :=
  ResolvePath (NewResolver [p]) D = Returns (D, Some ErrRouteNotFound).

(** The regular matcher is reached for [p]: [p] does not end in [**], or
    [subtreeMatch] has returned without a match. *)
Definition reachesGlob (p D : string) : Prop :=
  strings.HasSuffix p "**" = false
  \/ exists err, subtreeMatch (NewResolver [p]) D p = Returns (false, err).

(** The pattern set of the repository's test ([TestResolver]). *)
Definition testPaths : list string :=
  [ "* /loomings";
    "THE /carpet/bag";
    "* /carpet/bag";
    "THE /spouter/inn";
    "THE /counterpane/**";
    "* /breakfast/*";
    "* /nantucket/*/*/*";
    "* /nantucket/*/*";
    "* /enter/**";
    "**" ].

(** The test patterns without the last one, which matches everything. *)
Definition testPaths_without_wildcard : list string :=
  removelast testPaths.

(** C4 as the claim states it: the pattern [P ++ "/**"] matches [D] exactly
    when [D] begins with [P] followed by a slash, or [D] matches the whole
    pattern as a plain glob. *)
Definition subtree_claim_as_stated (P D : string) : Prop :=
  matches (P ++ "/**") D
  <-> ((exists rest, D = P ++ "/" ++ rest)
       \/ path.Match (P ++ "/**") D = (true, None)).

(** C7, the specification's side: the descriptor is the verb and the path
    joined by one space, and resolving a structured request is resolving
    that descriptor. *)
Definition descriptor_spec (verb path : string) : string :=
  verb ++ " " ++ path.

Definition Resolve_spec (r : Resolver) (verb path : string)
  : outcome (string * option error) :=
  ResolvePath r (descriptor_spec verb path).

(** [s] is made of stars only; [t] has no slash. *)
Fixpoint allStars (s : string) : bool :=
  match s with
  | "" => true
  | String c s' => isByte c "*" && allStars s'
  end.

Definition noSlash (t : string) : bool :=
  match strings.Index t "/" with None => true | Some _ => false end.

(** [w] is the second of the words of [header] that single spaces
    separate: [header] is a first word, a space, [w], and then nothing or a
    space and anything. *)
Definition secondWord (header w : string) : Prop :=
  exists first tail,
    header = first ++ " " ++ w ++ tail
    /\ strings.CountByte first " " = 0
    /\ strings.CountByte w " " = 0
    /\ (tail = "" \/ exists more, tail = " " ++ more).

(** A user database that knows one user, and fails for another. *)
Definition sampleUsers : UserPasswordLookup :=
  {| IsValid := fun user pass =>
       if String.eqb user "broken" then (false, Some (Errorf "backend down"))
       else (String.eqb user "Aladdin" && String.eqb pass "open sesame",
             None) |}.

(** [s] is made of ASCII white space only; [s] is made of ASCII bytes
    that are not white space. *)
Fixpoint blank (s : string) : bool :=
  match s with
  | "" => true
  | String c s' => strings.asciiSpace c && blank s'
  end.

Fixpoint visible (s : string) : bool :=
  match s with
  | "" => true
  | String c s' =>
      strings.isASCII c && negb (strings.asciiSpace c) && visible s'
  end.

(** The header value of a request, as [HTTPAuth.Authenticate] takes it:
    [strings.TrimSpace(req.Header.Get("Authorization"))]. *)
Definition authorization (req : http_Request) : string :=
  strings.TrimSpace (Header_Get req "Authorization").

(** The two calls of a challenge. *)
Definition challenge (realm : string) : list response_call :=
  [ Header_Set "WWW-Authenticate"
               ("Basic realm=" ++ quote ++ realm ++ quote);
    http_Error "Authentication Required" 401 ].

(** A request with the given Authorization header and no other. *)
Definition requestWith (value : string) : http_Request :=
  {| Header_Get := fun key =>
       if String.eqb key "Authorization" then value else "" |}.

End notions.
Import notions.

(** * Properties *)

(** ** The errors of [path.Match]

    [Match] has one error, [ErrBadPattern]; in particular it never gives
    the resolver's [ErrRouteNotFound]. *)

Module path_facts.

Import strings path.

Ltac break_let :=
  match goal with
  | H : context [let '(_, _) := ?x in _] |- _ => destruct x eqn:?
  | |- context [let '(_, _) := ?x in _] => destruct x eqn:?
  end.

Ltac break_if :=
  match goal with
  | H : context [if ?b then _ else _] |- _ => destruct b eqn:?
  | |- context [if ?b then _ else _] => destruct b eqn:?
  end.

Ltac inv H := inversion H; subst; clear H.

Lemma getEsc_error chunk r nchunk e :
  getEsc chunk = (r, nchunk, Some e) -> e = ErrBadPattern.
Proof.
  unfold getEsc. intros H.
  destruct chunk as [|c rest]; [now inv H|].
  repeat (break_if || break_let); now inv H.
Qed.

Lemma classRanges_error rounds : forall chunk r matched nrange e,
  classRanges rounds chunk r matched nrange = inl e -> e = ErrBadPattern.
Proof.
  induction rounds as [|rounds IH]; cbn [classRanges];
    intros chunk r matched nrange e H.
  - now inv H.
  - destruct (HasPrefix chunk "]" && (0 <? nrange)); [discriminate|].
    destruct (getEsc chunk) as [[lo chunk1] [e1|]] eqn:E1.
    + inv H. eauto using getEsc_error.
    + destruct (HasPrefix chunk1 "-").
      * destruct (getEsc (from 1 chunk1)) as [[hi chunk2] [e2|]] eqn:E2.
        -- inv H. eauto using getEsc_error.
        -- eauto.
      * eauto.
Qed.

Lemma matchChunk_loop_error rounds : forall chunk s failed t ok e,
  matchChunk_loop rounds chunk s failed = (t, ok, Some e) ->
  e = ErrBadPattern.
Proof.
  induction rounds as [|rounds IH]; intros chunk s failed t ok e H;
    destruct chunk as [|c chunk']; cbn [matchChunk_loop] in H.
  - destruct failed; discriminate.
  - now inv H.
  - destruct failed; discriminate.
  - repeat first
      [ match type of H with
        | matchChunk_loop _ _ _ _ = _ => apply IH in H; exact H
        end
      | match type of H with
        | context [classRanges ?a ?b ?c ?d ?e] =>
            destruct (classRanges a b c d e) as [?|[? ?]] eqn:?
        end
      | match type of H with
        | context [if ?b then _ else _] => destruct b eqn:?
        | context [let '(_, _) := ?x in _] => destruct x eqn:?
        | context [match ?x with _ => _ end] => destruct x eqn:?
        end
      | discriminate ];
    try (inv H; eauto using classRanges_error).
Qed.

Lemma matchChunk_error chunk s t ok e :
  matchChunk chunk s = (t, ok, Some e) -> e = ErrBadPattern.
Proof. apply matchChunk_loop_error. Qed.

Lemma starLoop_error chunk pattern name e :
  starLoop chunk pattern name = StarError e -> e = ErrBadPattern.
Proof.
  induction name as [|c name IH]; simpl; intros H; [discriminate|].
  destruct (isByte c "/"); [discriminate|].
  destruct (matchChunk chunk name) as [[t ok] err] eqn:E.
  destruct ok.
  - destruct ((length pattern =? 0) && (0 <? length t)); [auto|discriminate].
  - destruct err; [|auto]. inv H. eauto using matchChunk_error.
Qed.

Lemma checkRest_error rounds : forall pattern ok e,
  checkRest rounds pattern = (ok, Some e) -> e = ErrBadPattern.
Proof.
  induction rounds as [|rounds IH]; intros pattern ok e H;
    destruct pattern as [|c pattern']; simpl in H; try discriminate.
  destruct (scanChunk (String c pattern')) as [[star chunk] rest].
  destruct (matchChunk chunk "") as [[t ok'] [e'|]] eqn:E; simpl in H.
  - inv H. eauto using matchChunk_error.
  - eauto.
Qed.

Lemma Match_loop_error rounds : forall pattern name ok e,
  Match_loop rounds pattern name = (ok, Some e) -> e = ErrBadPattern.
Proof.
  induction rounds as [|rounds IH]; intros pattern name ok e H;
    destruct pattern as [|c pattern']; simpl in H; try discriminate.
  - now inv H.
  - destruct (scanChunk (String c pattern')) as [[star chunk] rest].
    destruct (star && (length chunk =? 0)); [discriminate|].
    destruct (matchChunk chunk name) as [[t ok'] err] eqn:E.
    destruct (ok' && ((length t =? 0) || (0 <? length rest))); [eauto|].
    destruct err as [e'|].
    + inv H. eauto using matchChunk_error.
    + destruct star; [|eauto using checkRest_error].
      destruct (starLoop chunk rest name) eqn:Es;
        eauto using checkRest_error.
      inv H. eauto using starLoop_error.
Qed.

(** [Match] reports no error but [ErrBadPattern]. *)
Lemma Match_error pattern name ok e :
  Match pattern name = (ok, Some e) -> e = ErrBadPattern.
Proof. apply Match_loop_error. Qed.

End path_facts.

(** ** Cutting a string at its slashes *)

Module strings_facts.

Import strings.

Lemma append_empty_r s : s ++ "" = s.
Proof. induction s; cbn; congruence. Qed.

Lemma length_append a b : length (a ++ b) = length a + length b.
Proof. induction a; cbn; congruence. Qed.

Lemma from_append a n b : from (length a + n) (a ++ b) = from n b.
Proof. induction a; cbn; auto. Qed.

Lemma from_length a b : from (length a) (a ++ b) = b.
Proof.
  rewrite <- (Nat.add_0_r (length a)), from_append. now destruct b.
Qed.

Lemma to_length a b : to (length a) (a ++ b) = a.
Proof. induction a; cbn; [now destruct b|congruence]. Qed.

Lemma CountByte_append a b c :
  CountByte (a ++ b) c = CountByte a c + CountByte b c.
Proof. induction a; cbn; lia. Qed.

Lemma CountByte_length s c : CountByte s c <= length s.
Proof.
  induction s as [|d s IH]; cbn; [lia|]. destruct (Ascii.eqb d c); lia.
Qed.

Lemma keep_all j : forall s, CountByte s "/" <= j -> keep j s = s.
Proof.
  induction j as [|j IHj]; induction s as [|c s IHs]; cbn; intros H; auto;
    destruct (Ascii.eqb c "/"); try lia; f_equal;
    try apply IHs; try apply IHj; lia.
Qed.

Lemma keep_cut_0 X R :
  CountByte X "/" = 0 -> keep 0 (X ++ "/" ++ R) = X.
Proof.
  induction X as [|c X IH]; cbn; intros H; [reflexivity|].
  destruct (Ascii.eqb c "/"); [lia|]. f_equal. apply IH. lia.
Qed.

Lemma keep_cut_S j X R :
  CountByte X "/" = 0 ->
  keep (S j) (X ++ "/" ++ R) = X ++ "/" ++ keep j R.
Proof.
  induction X as [|c X IH]; cbn; intros H; [reflexivity|].
  destruct (Ascii.eqb c "/"); [lia|]. f_equal. apply IH. lia.
Qed.

(** A descriptor with at least [j] slashes is its [keep j] part, possibly
    followed by a slash and more; that part has exactly [j] slashes. *)
Lemma keep_decompose j : forall s,
  j <= CountByte s "/" ->
  CountByte (keep j s) "/" = j
  /\ (s = keep j s \/ exists rest, s = keep j s ++ "/" ++ rest).
Proof.
  induction j as [|j IHj]; induction s as [|c s IHs]; cbn; intros H.
  - auto.
  - destruct (Ascii.eqb c "/") eqn:E.
    + apply Ascii.eqb_eq in E. subst c. split; [reflexivity|].
      right. exists s. reflexivity.
    + cbn. rewrite E. destruct IHs as [Hc [Hs|[rest Hs]]]; [lia| |];
        (split; [exact Hc|]).
      * left. now f_equal.
      * right. exists rest. cbn. now f_equal.
  - lia.
  - destruct (Ascii.eqb c "/") eqn:E.
    + cbn. rewrite E. destruct (IHj s) as [Hc [Hs|[rest Hs]]]; [lia| |];
        (split; [lia|]).
      * left. now f_equal.
      * right. exists rest. cbn. now f_equal.
    + cbn. rewrite E. destruct IHs as [Hc [Hs|[rest Hs]]]; [lia| |];
        (split; [exact Hc|]).
      * left. now f_equal.
      * right. exists rest. cbn. now f_equal.
Qed.

(** Conversely, a text with [j] slashes is the [keep j] part of itself and
    of whatever extends it after a slash. *)
Lemma keep_exact X rest :
  keep (CountByte X "/") (X ++ "/" ++ rest) = X.
Proof.
  induction X as [|c X IH]; cbn; [reflexivity|].
  destruct (Ascii.eqb c "/"); cbn; f_equal; exact IH.
Qed.

(** The first cut of [genSplit]'s loop, for the separator "/". *)
Lemma Index_slash s :
  match Index s "/" with
  | None => CountByte s "/" = 0
  | Some m =>
      exists X R, s = X ++ "/" ++ R /\ CountByte X "/" = 0
                  /\ to (m + 0) s = X /\ from (m + 1) s = R
  end.
Proof.
  induction s as [|c s IH]; cbn; [reflexivity|].
  destruct (Ascii.eqb c "/") eqn:E; cbn.
  - apply Ascii.eqb_eq in E. subst c. exists "", s. repeat split.
  - destruct (Index s "/") as [m|]; cbn; [|exact IH].
    destruct IH as (X & R & Hs & HX & Ht & Hf).
    exists (String c X), R. cbn. rewrite E.
    repeat split; [now f_equal|exact HX|now f_equal|exact Hf].
Qed.

Lemma genSplit_loop_nonempty rounds s :
  genSplit_loop rounds s "/" 0 <> [].
Proof.
  destruct rounds; cbn; [discriminate|].
  destruct (Index s "/"); discriminate.
Qed.

Lemma Join_cons e l :
  l <> [] -> Join (e :: l) "/" = e ++ "/" ++ Join l "/".
Proof. destruct l; [congruence|reflexivity]. Qed.

(** Joining the pieces gives the string back. *)
Lemma Join_genSplit_loop rounds : forall s,
  Join (genSplit_loop rounds s "/" 0) "/" = s.
Proof.
  induction rounds as [|rounds IH]; intros s; cbn [genSplit_loop];
    [reflexivity|].
  pose proof (Index_slash s) as H.
  destruct (Index s "/") as [m|]; [|reflexivity].
  destruct H as (X & R & Hs & HX & Ht & Hf).
  cbn [length]. rewrite Ht, Hf, Join_cons by apply genSplit_loop_nonempty.
  rewrite IH. congruence.
Qed.

(** The number of pieces. *)
Lemma length_genSplit_loop rounds : forall s,
  List.length (genSplit_loop rounds s "/" 0)
  = S (Nat.min rounds (CountByte s "/")).
Proof.
  induction rounds as [|rounds IH]; intros s; cbn [genSplit_loop];
    [reflexivity|].
  pose proof (Index_slash s) as H.
  destruct (Index s "/") as [m|].
  - destruct H as (X & R & Hs & HX & Ht & Hf).
    cbn [length List.length]. rewrite Hf, IH.
    replace (CountByte s "/") with (S (CountByte R "/"))
      by (rewrite Hs, !CountByte_append; cbn; lia).
    lia.
  - rewrite H. cbn. lia.
Qed.

Lemma genSplit_loop_S rounds s sep sepSave :
  genSplit_loop (S rounds) s sep sepSave =
  match Index s sep with
  | None => [s]
  | Some m =>
      to (m + sepSave) s
      :: genSplit_loop rounds (from (m + length sep) s) sep sepSave
  end.
Proof. reflexivity. Qed.

(** Joining the first [j+1] pieces of a split at up to [j+1] slashes gives
    the text before the [(j+1)]-th slash. *)
Lemma Join_firstn_genSplit_loop j : forall s,
  Join (firstn (S j) (genSplit_loop (S j) s "/" 0)) "/" = keep j s.
Proof.
  induction j as [|j IH]; intros s; rewrite genSplit_loop_S;
    pose proof (Index_slash s) as H;
    destruct (Index s "/") as [m|].
  - destruct H as (X & R & Hs & HX & Ht & Hf).
    cbn [length]. rewrite Ht. cbn.
    rewrite <- (keep_cut_0 X R) by assumption. now rewrite <- Hs.
  - cbn. symmetry. apply keep_all. lia.
  - destruct H as (X & R & Hs & HX & Ht & Hf).
    cbn [length]. rewrite Ht, Hf.
    change (firstn (S (S j)) (X :: ?l)) with (X :: firstn (S j) l).
    rewrite Join_cons.
    + rewrite IH. rewrite <- keep_cut_S by assumption. now rewrite <- Hs.
    + pose proof (genSplit_loop_nonempty (S j) R).
      destruct (genSplit_loop (S j) R "/" 0); [congruence|discriminate].
  - cbn. symmetry. apply keep_all. lia.
Qed.

(** The capacity of what [SplitN] returns: the requested number of pieces,
    clamped to [len(s)+1]. *)
Lemma cap_SplitN s k :
  cap (SplitN s "/" (Z.of_nat k + 1)) = Nat.min (length s + 1) (k + 1).
Proof.
  unfold SplitN, genSplit, cap.
  replace (Z.of_nat k + 1 =? 0)%Z with false
    by (symmetry; apply Z.eqb_neq; lia).
  replace (Z.of_nat k + 1 <? 0)%Z with false
    by (symmetry; apply Z.ltb_ge; lia).
  replace (Z.to_nat (Z.of_nat k + 1)) with (k + 1) by lia.
  cbn [String.eqb Ascii.eqb Bool.eqb backing].
  set (n := if length s + 1 <? k + 1 then length s + 1 else k + 1).
  rewrite length_app, repeat_length, length_genSplit_loop.
  subst n. destruct (Nat.ltb_spec (length s + 1) (k + 1)); lia.
Qed.

(** The slice [parts[0:countSlash]] of [subtreeMatch], joined: for a
    descriptor with at least [j] slashes and [countSlash = j+1], it is the
    text before the [(j+1)]-th slash (the whole descriptor when it has
    just [j]). *)
Lemma SplitN_keep j D :
  j <= CountByte D "/" ->
  exists l, slice_to (SplitN D "/" (Z.of_nat (S j) + 1)) (S j) = Returns l
            /\ Join l "/" = keep j D.
Proof.
  intros Hj. pose proof (CountByte_length D "/") as Hlen.
  unfold slice_to. rewrite cap_SplitN.
  replace (S j <=? Nat.min (length D + 1) (S j + 1)) with true
    by (symmetry; apply Nat.leb_le; lia).
  eexists. split; [reflexivity|].
  unfold SplitN, genSplit.
  replace (Z.of_nat (S j) + 1 =? 0)%Z with false
    by (symmetry; apply Z.eqb_neq; lia).
  replace (Z.of_nat (S j) + 1 <? 0)%Z with false
    by (symmetry; apply Z.ltb_ge; lia).
  replace (Z.to_nat (Z.of_nat (S j) + 1)) with (S (S j)) by lia.
  cbn [String.eqb Ascii.eqb Bool.eqb backing].
  destruct (Nat.ltb_spec (length D + 1) (S (S j))) as [Hshort|Hlong].
  - (* the descriptor is nothing but its [j] slashes *)
    assert (length D = j) as Hl by lia.
    replace (length D + 1 - 1) with j by lia.
    rewrite firstn_app, length_genSplit_loop.
    replace (S j - S (Nat.min j (CountByte D "/"))) with 0 by lia.
    rewrite firstn_all2 by (rewrite length_genSplit_loop; lia).
    cbn [firstn]. rewrite app_nil_r, Join_genSplit_loop.
    symmetry. apply keep_all. lia.
  - replace (S (S j) - 1) with (S j) by lia.
    rewrite firstn_app, length_genSplit_loop.
    replace (S j - S (Nat.min (S j) (CountByte D "/"))) with 0 by lia.
    cbn [firstn]. rewrite app_nil_r.
    apply Join_firstn_genSplit_loop.
Qed.

(** The number of parts of [strings.SplitN(full, ":", 2)]: one without a
    colon, two with one. *)
Lemma len_SplitN_colon full :
  len (SplitN full ":" 2)
  = match Index full ":" with None => 1 | Some _ => 2 end.
Proof.
  destruct full as [|c full]; [reflexivity|].
  unfold SplitN, genSplit.
  change (2 =? 0)%Z with false. change (String.eqb ":" "") with false.
  change (2 <? 0)%Z with false. change (Z.to_nat 2) with 2.
  cbv beta iota zeta.
  replace (length (String c full) + 1 <? 2) with false
    by (symmetry; apply Nat.ltb_ge; cbn; lia).
  change (2 - 1) with 1. rewrite genSplit_loop_S. cbn [len].
  now destruct (Index (String c full) ":").
Qed.

(** *** Patterns with the suffix "/**" *)

Lemma HasSuffix_subtree P : HasSuffix (P ++ "/**") "**" = true.
Proof.
  unfold HasSuffix. rewrite length_append. cbn [length].
  replace (length P + 3 - 2) with (length P + 1) by lia.
  rewrite from_append.
  replace (2 <=? length P + 3) with true by (symmetry; apply Nat.leb_le; lia).
  reflexivity.
Qed.

Lemma subtree_not_universal P : String.eqb (P ++ "/**") "**" = false.
Proof.
  apply String.eqb_neq. intros H. apply (f_equal length) in H.
  rewrite length_append in H. cbn in H. lia.
Qed.

Lemma Count_subtree P : Count (P ++ "/**") "/" = S (CountByte P "/").
Proof. cbn [Count]. rewrite CountByte_append. cbn. lia. Qed.

Lemma HasPrefix_subtree_append c P :
  HasPrefix (String c P) "/**" = false ->
  HasPrefix (String c P ++ "/**") "/**" = false.
Proof.
  destruct P as [|d [|e P]]; cbn; intros H;
    repeat match goal with
           | |- context [Ascii.eqb ?a ?b] =>
               let E := fresh "E" in
               destruct (Ascii.eqb a b) eqn:E;
               try (apply Ascii.eqb_eq in E; subst)
           end; cbn in *; congruence.
Qed.

Lemma Index_subtree P :
  Index P "/**" = None -> Index (P ++ "/**") "/**" = Some (length P).
Proof.
  induction P as [|c P IH]; [reflexivity|].
  intros H. cbn [Index] in H.
  destruct (HasPrefix (String c P) "/**") eqn:E; [discriminate|].
  destruct (Index P "/**"); [discriminate|].
  change (Index (String c P ++ "/**") "/**")
    with (if HasPrefix (String c P ++ "/**") "/**" then Some 0
          else option_map S (Index (P ++ "/**") "/**")).
  rewrite HasPrefix_subtree_append by assumption.
  rewrite IH by reflexivity. reflexivity.
Qed.

(** Removing the one "/**" of [P ++ "/**"] gives [P] back. *)
Lemma Replace_subtree P :
  Index P "/**" = None -> Replace (P ++ "/**") "/**" "" (-1) = P.
Proof.
  intros H. pose proof (Index_subtree P H) as HI.
  unfold Replace. cbn [String.eqb orb Z.eqb].
  assert (Count (P ++ "/**") "/**" = 1) as ->.
  { cbn [Count]. rewrite length_append. cbn [length].
    replace (length P + 3) with (S (length P + 2)) by lia.
    cbn [Count_loop]. rewrite HI. cbn [length].
    rewrite from_append. cbn [from].
    destruct (length P + 2); reflexivity. }
  cbn [Nat.eqb Z.ltb Z.compare orb Z.of_nat Replace_loop].
  rewrite HI. cbn [length]. rewrite from_append.
  pose proof (to_length P "/**") as Ht. rewrite Ht.
  cbn. now rewrite append_empty_r.
Qed.

End strings_facts.

(** ** The loops of [path.Match] have rounds enough

    The loops of the model count their rounds down from the length of the
    pattern (or chunk).  Every round takes at least one byte, so the count
    never runs out: any larger number of rounds gives the same result. *)

Module rounds_facts.

Import strings path strings_facts.

Lemma length_from n : forall s, length (from n s) = length s - n.
Proof. induction n; destruct s; cbn; auto. Qed.

Lemma DecodeRune_width c s :
  let n := snd (utf8.DecodeRuneInString (String c s)) in
  1 <= n <= length (String c s).
Proof.
  unfold utf8.DecodeRuneInString.
  repeat match goal with
         | |- context [if ?b then _ else _] => destruct b
         | |- context [let '(_, _) := ?x in _] => destruct x
         | |- context [match ?t with "" => _ | String _ _ => _ end] =>
             destruct t
         end; cbn; lia.
Qed.

Lemma getEsc_shorter chunk r nchunk :
  getEsc chunk = (r, nchunk, None) -> length nchunk < length chunk.
Proof.
  unfold getEsc. destruct chunk as [|c rest]; [discriminate|].
  destruct (isByte c "-" || isByte c "]"); [discriminate|].
  destruct (isByte c "\" && (length rest =? 0)) eqn:E; [discriminate|].
  destruct (isByte c "\").
  - destruct rest as [|d rest]; [discriminate|].
    pose proof (DecodeRune_width d rest) as W.
    destruct (utf8.DecodeRuneInString (String d rest)) as [r' n].
    intros H. injection H as _ <- _. rewrite length_from.
    cbn [length snd] in *. lia.
  - pose proof (DecodeRune_width c rest) as W.
    destruct (utf8.DecodeRuneInString (String c rest)) as [r' n].
    intros H. injection H as _ <- _. rewrite length_from.
    cbn [length snd] in *. lia.
Qed.

Lemma HasPrefix_byte_length s b :
  HasPrefix s (String b "") = true -> 1 <= length s.
Proof. destruct s; cbn; [discriminate|lia]. Qed.

Lemma classRanges_shorter rounds : forall chunk r matched nrange chunk' m,
  classRanges rounds chunk r matched nrange = inr (chunk', m) ->
  length chunk' < length chunk.
Proof.
  induction rounds as [|rounds IH]; cbn [classRanges];
    intros chunk r matched nrange chunk' m H; [discriminate|].
  destruct (HasPrefix chunk "]") eqn:Eb; cbn [andb] in H.
  - apply HasPrefix_byte_length in Eb.
    destruct (0 <? nrange).
    + injection H as <- _. rewrite length_from. lia.
    + destruct (getEsc chunk) as [[lo c1] [e|]] eqn:E1; [discriminate|].
      apply getEsc_shorter in E1.
      destruct (HasPrefix c1 "-").
      * destruct (getEsc (from 1 c1)) as [[hi c2] [e|]] eqn:E2;
          [discriminate|].
        apply getEsc_shorter in E2. rewrite length_from in E2.
        apply IH in H. lia.
      * apply IH in H. lia.
  - destruct (getEsc chunk) as [[lo c1] [e|]] eqn:E1; [discriminate|].
    apply getEsc_shorter in E1.
    destruct (HasPrefix c1 "-").
    + destruct (getEsc (from 1 c1)) as [[hi c2] [e|]] eqn:E2;
        [discriminate|].
      apply getEsc_shorter in E2. rewrite length_from in E2.
      apply IH in H. lia.
    + apply IH in H. lia.
Qed.

Lemma classRanges_rounds f1 : forall f2 chunk r matched nrange,
  length chunk < f1 -> length chunk < f2 ->
  classRanges f1 chunk r matched nrange
  = classRanges f2 chunk r matched nrange.
Proof.
  induction f1 as [|f1 IH]; intros [|f2] chunk r matched nrange H1 H2;
    try lia.
  cbn [classRanges].
  destruct (HasPrefix chunk "]" && (0 <? nrange)); [reflexivity|].
  destruct (getEsc chunk) as [[lo c1] [e|]] eqn:E1; [reflexivity|].
  apply getEsc_shorter in E1.
  destruct (HasPrefix c1 "-").
  - destruct (getEsc (from 1 c1)) as [[hi c2] [e|]] eqn:E2; [reflexivity|].
    apply getEsc_shorter in E2. rewrite length_from in E2.
    apply IH; lia.
  - apply IH; lia.
Qed.

Lemma matchChunk_loop_rounds f1 : forall f2 chunk s failed,
  length chunk <= f1 -> length chunk <= f2 ->
  matchChunk_loop f1 chunk s failed = matchChunk_loop f2 chunk s failed.
Proof.
  induction f1 as [|f1 IH]; intros f2 chunk s failed H1 H2;
    destruct chunk as [|c chunk']; cbn [length] in *; try lia;
    [destruct f2; reflexivity|destruct f2; reflexivity|].
  destruct f2 as [|f2]; [lia|].
  cbn [matchChunk_loop].
  set (failed' := if negb failed && (length s =? 0) then true else failed).
  clearbody failed'.
  destruct (isByte c "[").
  { destruct (if negb failed' then _ else _) as [r s'].
    assert (forall neg chunk,
               length chunk <= length chunk' ->
               match classRanges (S (length chunk)) chunk r false 0 with
               | inl e => ("", false, Some e)
               | inr (chunk0, matched) =>
                   matchChunk_loop f1 chunk0 s'
                     (if Bool.eqb matched neg then true else failed')
               end
               = match classRanges (S (length chunk)) chunk r false 0 with
                 | inl e => ("", false, Some e)
                 | inr (chunk0, matched) =>
                     matchChunk_loop f2 chunk0 s'
                       (if Bool.eqb matched neg then true else failed')
                 end) as Hclass.
    { intros neg chunk Hc.
      destruct (classRanges _ chunk r false 0) as [e|[c3 m]] eqn:E;
        [reflexivity|].
      apply classRanges_shorter in E. apply IH; lia. }
    destruct (HasPrefix chunk' "^"); apply Hclass;
      rewrite ?length_from; lia. }
  destruct (isByte c "?").
  { destruct (negb failed'); [|apply IH; lia].
    destruct (utf8.DecodeRuneInString s) as [r n]. apply IH; lia. }
  destruct (isByte c "\").
  { destruct chunk' as [|d chunk'']; [reflexivity|].
    cbn [length] in *.
    destruct (negb failed'); apply IH; lia. }
  destruct (negb failed'); apply IH; lia.
Qed.

(** [matchChunk] with any number of rounds that covers the chunk. *)
Lemma matchChunk_enough_rounds rounds chunk s :
  length chunk <= rounds ->
  matchChunk_loop rounds chunk s false = matchChunk chunk s.
Proof. intros H. apply matchChunk_loop_rounds; lia. Qed.

Lemma scan_length n : forall inrange pattern,
  length pattern <= n ->
  length (fst (scan inrange pattern)) + length (snd (scan inrange pattern))
  = length pattern.
Proof.
  induction n as [|n IH]; intros inrange [|c pattern'] H;
    cbn [length] in *; try lia; try reflexivity.
  cbn [scan].
  destruct (isByte c "\").
  - destruct pattern' as [|d pattern'']; [reflexivity|].
    cbn [length] in *.
    specialize (IH inrange pattern'').
    destruct (scan inrange pattern'') as [chunk rest]. cbn in *. lia.
  - destruct (isByte c "*" && negb inrange); [cbn; lia|].
    match goal with
    | |- context [scan ?i pattern'] =>
        specialize (IH i pattern'); destruct (scan i pattern') as [chunk rest]
    end.
    cbn in *. lia.
Qed.

Lemma scan_progress inrange c pattern' :
  isByte c "*" = false ->
  length (snd (scan inrange (String c pattern'))) < length (String c pattern').
Proof.
  intros Hc. cbn [scan]. rewrite Hc. cbn [andb].
  destruct (isByte c "\").
  - destruct pattern' as [|d pattern'']; [cbn; lia|].
    pose proof (scan_length _ inrange pattern'' (le_n _)) as L.
    destruct (scan inrange pattern'') as [chunk rest]. cbn in *. lia.
  - match goal with
    | |- context [scan ?i pattern'] =>
        pose proof (scan_length _ i pattern' (le_n _)) as L;
        destruct (scan i pattern') as [chunk rest]
    end.
    cbn in *. lia.
Qed.

Lemma skipStars_spec pattern :
  let '(star, rest) := skipStars pattern in
  length rest <= length pattern
  /\ (star = true -> length rest < length pattern)
  /\ HasPrefix rest "*" = false.
Proof.
  induction pattern as [|c pattern' IH]; cbn [skipStars].
  - repeat split; cbn; auto; discriminate.
  - destruct (isByte c "*") eqn:E.
    + destruct (skipStars pattern') as [star rest]. cbn [snd length].
      destruct IH as (L & _ & P). repeat split; auto; lia.
    + repeat split; auto; discriminate.
Qed.

Lemma scanChunk_shorter c pattern' star chunk rest :
  scanChunk (String c pattern') = (star, chunk, rest) ->
  length rest < length (String c pattern').
Proof.
  unfold scanChunk.
  pose proof (skipStars_spec (String c pattern')) as S.
  destruct (skipStars (String c pattern')) as [star' p2] eqn:E.
  destruct S as (L & Lt & P).
  destruct p2 as [|d p2'].
  - cbn. intros H. injection H as _ _ <-. cbn. lia.
  - assert (isByte d "*" = false) as Hd.
    { unfold isByte. cbn in *. destruct (Ascii.eqb d "*"); auto. }
    pose proof (scan_progress false d p2' Hd) as Pr.
    destruct (scan false (String d p2')) as [chunk' rest'].
    intros H. injection H as _ _ <-. cbn [snd] in Pr. lia.
Qed.

Lemma checkRest_rounds f1 : forall f2 pattern,
  length pattern <= f1 -> length pattern <= f2 ->
  checkRest f1 pattern = checkRest f2 pattern.
Proof.
  induction f1 as [|f1 IH]; intros f2 [|c pattern'] H1 H2;
    cbn [length] in *; try lia;
    [destruct f2; reflexivity|destruct f2; reflexivity|].
  destruct f2 as [|f2]; [lia|]. cbn [checkRest].
  destruct (scanChunk (String c pattern')) as [[star chunk] rest] eqn:E.
  apply scanChunk_shorter in E. cbn [length] in E.
  destruct (snd (matchChunk chunk "")); [reflexivity|].
  apply IH; lia.
Qed.

Lemma Match_loop_rounds f1 : forall f2 pattern name,
  length pattern <= f1 -> length pattern <= f2 ->
  Match_loop f1 pattern name = Match_loop f2 pattern name.
Proof.
  induction f1 as [|f1 IH]; intros f2 [|c pattern'] name H1 H2;
    cbn [length] in *; try lia;
    [destruct f2; reflexivity|destruct f2; reflexivity|].
  destruct f2 as [|f2]; [lia|]. cbn [Match_loop].
  destruct (scanChunk (String c pattern')) as [[star chunk] rest] eqn:E.
  apply scanChunk_shorter in E. cbn [length] in E.
  destruct (star && (length chunk =? 0)); [reflexivity|].
  destruct (matchChunk chunk name) as [[t ok] err].
  destruct (ok && ((length t =? 0) || (0 <? length rest)));
    [apply IH; lia|].
  destruct err; [reflexivity|].
  destruct (if star then starLoop chunk rest name else StarNone);
    [apply IH; lia|reflexivity|reflexivity].
Qed.

(** [Match] with any number of rounds that covers the pattern. *)
Lemma Match_enough_rounds rounds pattern name :
  length pattern <= rounds ->
  Match_loop rounds pattern name = Match pattern name.
Proof. intros H. apply Match_loop_rounds; lia. Qed.

(** The same for the loops of [strings.Count], [utf8.RuneCountInString]
    and [base64]'s [Decode]. *)

Lemma Index_nonempty s c substr i :
  Index s (String c substr) = Some i -> 1 <= length s.
Proof. destruct s; cbn; [discriminate|lia]. Qed.

Lemma Count_loop_rounds f1 : forall f2 s c substr,
  length s <= f1 -> length s <= f2 ->
  Count_loop f1 s (String c substr) = Count_loop f2 s (String c substr).
Proof.
  induction f1 as [|f1 IH]; intros [|f2] s c substr H1 H2;
    cbn [Count_loop]; try reflexivity.
  - destruct (Index s (String c substr)) eqn:E; [|reflexivity].
    apply Index_nonempty in E. lia.
  - destruct (Index s (String c substr)) eqn:E; [|reflexivity].
    apply Index_nonempty in E. lia.
  - destruct (Index s (String c substr)) eqn:E; [|reflexivity].
    apply Index_nonempty in E. f_equal.
    apply IH; rewrite length_from; cbn [length]; lia.
Qed.

Lemma RuneCount_loop_rounds f1 : forall f2 s,
  length s <= f1 -> length s <= f2 ->
  utf8.RuneCount_loop f1 s = utf8.RuneCount_loop f2 s.
Proof.
  induction f1 as [|f1 IH]; intros [|f2] [|c s] H1 H2;
    cbn [length] in *; try lia; try reflexivity.
  cbn [utf8.RuneCount_loop]. f_equal.
  pose proof (DecodeRune_width c s) as W. cbn [length] in W.
  apply IH; rewrite length_from; cbn [length]; lia.
Qed.

Lemma skipNewlines_length src : forall si,
  length (fst (base64.skipNewlines src si)) <= length src.
Proof.
  induction src as [|c src IH]; intros si; cbn [base64.skipNewlines];
    [cbn; lia|].
  destruct (base64.isNewline c); [|cbn; lia].
  specialize (IH (S si)). cbn [length]. lia.
Qed.

Lemma decodeQuantum_shorter src : forall si j dbuf srclen rest si' bytes err,
  base64.decodeQuantum src si j dbuf srclen = (rest, si', bytes, err) ->
  length rest <= length src.
Proof.
  induction src as [|c src IH];
    intros si j dbuf srclen rest si' bytes err H;
    cbn [base64.decodeQuantum] in H.
  - destruct (j =? 0); injection H as <- _ _ _; cbn; lia.
  - cbn [length].
    destruct (base64.decodeMap c).
    { destruct (S j =? 4); [injection H as <- _ _ _; lia|].
      apply IH in H. lia. }
    destruct (base64.isNewline c); [apply IH in H; lia|].
    destruct (negb (base64.isPad c)); [injection H as <- _ _ _; lia|].
    destruct (j <? 2); [injection H as <- _ _ _; lia|].
    destruct (j =? 2).
    + pose proof (skipNewlines_length src (S si)) as L1.
      destruct (base64.skipNewlines src (S si)) as [rest1 si1].
      cbn [fst] in L1.
      destruct rest1 as [|c' rest'].
      * injection H as <- _ _ _. cbn. lia.
      * destruct (base64.isPad c').
        -- pose proof (skipNewlines_length rest' (S si1)) as L2.
           destruct (base64.skipNewlines rest' (S si1)) as [rest2 si2].
           injection H as <- _ _ _. cbn [fst length] in *. lia.
        -- injection H as <- _ _ _. lia.
    + pose proof (skipNewlines_length src (S si)) as L1.
      destruct (base64.skipNewlines src (S si)) as [rest1 si1].
      injection H as <- _ _ _. cbn [fst] in L1. lia.
Qed.

Lemma Decode_loop_rounds f1 : forall f2 src si srclen,
  length src <= f1 -> length src <= f2 ->
  base64.Decode_loop f1 src si srclen = base64.Decode_loop f2 src si srclen.
Proof.
  induction f1 as [|f1 IH]; intros [|f2] [|c src] si srclen H1 H2;
    cbn [length] in *; try lia; try reflexivity.
  cbn [base64.Decode_loop].
  destruct (base64.decodeQuantum (String c src) si 0 [] srclen)
    as [[[rest si'] bytes] err] eqn:E.
  assert (length rest <= length src) as L.
  { cbn [base64.decodeQuantum] in E.
    destruct (base64.decodeMap c).
    - apply decodeQuantum_shorter in E. exact E.
    - destruct (base64.isNewline c);
        [apply decodeQuantum_shorter in E; exact E|].
      destruct (negb (base64.isPad c)); [injection E as <- _ _ _; lia|].
      injection E as <- _ _ _. lia. }
  destruct err; [reflexivity|].
  rewrite (IH f2) by lia. reflexivity.
Qed.

End rounds_facts.

(** ** Patterns without metacharacters *)

Module literal_facts.

Import strings path strings_facts.

Lemma literal_cons c s :
  literal (String c s) = true ->
  isByte c "*" = false /\ isByte c "?" = false /\ isByte c "[" = false
  /\ isByte c "\" = false /\ literal s = true.
Proof.
  cbn [literal]. intros H. apply andb_prop in H as [H1 H2].
  apply negb_true_iff in H1.
  apply orb_false_elim in H1 as [H1 Hb].
  apply orb_false_elim in H1 as [H1 Hk].
  apply orb_false_elim in H1 as [Hs Hq].
  repeat split; assumption.
Qed.

Lemma skipStars_literal P : literal P = true -> skipStars P = (false, P).
Proof.
  destruct P as [|c P]; [reflexivity|]. intros H.
  apply literal_cons in H as (Hs & _). cbn [skipStars]. now rewrite Hs.
Qed.

Lemma scan_literal P : forall inrange,
  literal P = true -> scan inrange P = (P, "").
Proof.
  induction P as [|c P IH]; intros inrange H; [reflexivity|].
  apply literal_cons in H as (Hs & _ & _ & Hb & HP).
  cbn [scan]. rewrite Hb, Hs. cbn [andb]. now rewrite IH.
Qed.

Lemma scanChunk_literal P : literal P = true -> scanChunk P = (false, P, "").
Proof.
  intros H. unfold scanChunk. now rewrite skipStars_literal, scan_literal.
Qed.

Lemma matchChunk_loop_literal_failed P : forall rounds s,
  literal P = true -> length P <= rounds ->
  matchChunk_loop rounds P s true = ("", false, None).
Proof.
  induction P as [|c P IH]; intros rounds s H L.
  - now destruct rounds.
  - destruct rounds as [|rounds]; cbn [length] in L; [lia|].
    apply literal_cons in H as (_ & Hq & Hk & Hb & HP).
    cbn [matchChunk_loop negb andb]. rewrite Hk, Hq, Hb.
    apply IH; [assumption|lia].
Qed.

(** A literal chunk matches the beginning of [s] when [s] begins with it. *)
Lemma matchChunk_loop_literal P : forall rounds s,
  literal P = true -> length P <= rounds ->
  matchChunk_loop rounds P s false
  = if HasPrefix s P then (from (length P) s, true, None)
    else ("", false, None).
Proof.
  induction P as [|c P IH]; intros rounds s H L.
  - destruct rounds, s; reflexivity.
  - destruct rounds as [|rounds]; cbn [length] in L; [lia|].
    pose proof H as H'.
    apply literal_cons in H as (_ & Hq & Hk & Hb & HP).
    cbn [matchChunk_loop negb andb]. rewrite Hk, Hq, Hb.
    destruct s as [|d s].
    + cbn [length Nat.eqb negb HasPrefix].
      apply matchChunk_loop_literal_failed; [assumption|lia].
    + cbn [length Nat.eqb negb HasPrefix andb from].
      destruct (Ascii.eqb d c); cbn [negb andb].
      * apply IH; [assumption|lia].
      * apply matchChunk_loop_literal_failed; [assumption|lia].
Qed.

Lemma HasPrefix_whole X : forall P,
  HasPrefix X P = true -> length (from (length P) X) = 0 -> X = P.
Proof.
  induction X as [|d X IH]; intros [|c P]; cbn; try discriminate; auto.
  intros H L. apply andb_prop in H as [Hc HP].
  apply Ascii.eqb_eq in Hc. subst d. f_equal. now apply IH.
Qed.

Lemma HasPrefix_refl P : HasPrefix P P = true.
Proof. induction P; cbn; [reflexivity|]. now rewrite Ascii.eqb_refl. Qed.

(** A literal pattern matches itself and nothing else. *)
Lemma Match_literal P X :
  literal P = true -> (path.Match P X = (true, None) <-> X = P).
Proof.
  intros H. unfold Match.
  destruct P as [|c P].
  - cbn. destruct X; cbn; split; congruence.
  - cbn [length Match_loop]. rewrite scanChunk_literal by assumption.
    cbn [andb]. unfold matchChunk.
    rewrite matchChunk_loop_literal by (auto; lia).
    destruct (HasPrefix X (String c P)) eqn:E.
    + cbn [andb length Nat.ltb Nat.leb orb].
      destruct (length (from (S (length P)) X) =? 0) eqn:E0; cbn [orb].
      * apply Nat.eqb_eq in E0.
        pose proof (HasPrefix_whole _ _ E E0) as ->.
        split; [reflexivity|intros _].
        destruct (length P); cbn [Match_loop]; now rewrite E0.
      * apply Nat.eqb_neq in E0. cbn. split; [discriminate|].
        intros ->. exfalso. apply E0.
        pose proof (from_length (String c P) "") as F.
        rewrite append_empty_r in F. cbn [length] in F. now rewrite F.
    + cbn. split; [discriminate|].
      intros ->. now rewrite HasPrefix_refl in E.
Qed.

Lemma literal_no_subtree P : literal P = true -> Index P "/**" = None.
Proof.
  induction P as [|c P IH]; intros H; [reflexivity|].
  apply literal_cons in H as (_ & _ & _ & _ & HP).
  cbn [Index]. rewrite (IH HP).
  destruct P as [|d P]; [cbn; now destruct (Ascii.eqb c "/")|].
  apply literal_cons in HP as (Hs & _).
  unfold isByte in Hs. cbn in Hs. cbn.
  destruct (Ascii.eqb c "/"); [|reflexivity].
  destruct (Ascii.eqb d "*"); [discriminate|reflexivity].
Qed.

End literal_facts.

(** ** The resolver, one pattern at a time *)

Module resolver_facts.

Import strings path path_facts.

(** The receiver is not read by [subtreeMatch], so the loop depends on the
    patterns it is given only. *)
Lemma ResolvePath_loop_receiver r r' patterns D :
  ResolvePath_loop r patterns D = ResolvePath_loop r' patterns D.
Proof.
  induction patterns as [|p rest IH]; cbn [ResolvePath_loop]; [reflexivity|].
  rewrite IH. reflexivity.
Qed.

(** One round of the loop: the result for [p :: rest] is the result for [p]
    alone, unless that is "route not found", in which case the loop goes
    on with [rest]. *)
Lemma ResolvePath_cons p rest D :
  ResolvePath (NewResolver (p :: rest)) D =
  match ResolvePath (NewResolver [p]) D with
  | Returns (_, Some ErrRouteNotFound) => ResolvePath (NewResolver rest) D
  | o => o
  end.
Proof.
  unfold ResolvePath, NewResolver. cbn [paths ResolvePath_loop].
  rewrite (ResolvePath_loop_receiver _ {| paths := rest |}).
  change (subtreeMatch {| paths := p :: rest |} D p)
    with (subtreeMatch {| paths := [p] |} D p).
  destruct (Match p D) as [ok [e|]] eqn:E;
    [apply Match_error in E; subst e|];
    destruct (HasSuffix p "**");
    try destruct (subtreeMatch {| paths := [p] |} D p) as [[[] err]|x];
    destruct ok; reflexivity.
Qed.

(** A single pattern has four possible results. *)
Lemma single_cases p D :
  matches p D \/ rejects p D
  \/ ResolvePath (NewResolver [p]) D = Returns (D, Some ErrBadPattern)
  \/ exists x, ResolvePath (NewResolver [p]) D = Panics x.
Proof.
  unfold matches, rejects, ResolvePath, NewResolver.
  cbn [paths ResolvePath_loop].
  destruct (Match p D) as [ok [e|]] eqn:E;
    [apply Match_error in E; subst e|];
    destruct (HasSuffix p "**");
    try destruct (subtreeMatch {| paths := [p] |} D p) as [[[] err]|x];
    destruct ok; cbn; eauto.
Qed.

(** The patterns before the first one that is not passed over play no
    part in the result. *)
Lemma ResolvePath_skip pre rest D :
  (forall q, In q pre -> rejects q D) ->
  ResolvePath (NewResolver (pre ++ rest)) D = ResolvePath (NewResolver rest) D.
Proof.
  induction pre as [|q pre IH]; intros Hpre; [reflexivity|].
  cbn [app]. rewrite ResolvePath_cons.
  rewrite (Hpre q (or_introl eq_refl)).
  apply IH. intros q' Hq'. apply Hpre. now right.
Qed.

(** The first pattern that is not passed over decides the result, and the
    patterns after it are not looked at. *)
Lemma ResolvePath_decided pre p post D :
  (forall q, In q pre -> rejects q D) ->
  ~ rejects p D ->
  ResolvePath (NewResolver (pre ++ p :: post)) D
  = ResolvePath (NewResolver [p]) D.
Proof.
  intros Hpre Hp. rewrite ResolvePath_skip by assumption.
  rewrite ResolvePath_cons.
  destruct (single_cases p D) as [H|[H|[H|[x H]]]];
    try contradiction; rewrite H; reflexivity.
Qed.

(** When every pattern is passed over, the route is not found. *)
Lemma ResolvePath_exhausted patterns D :
  (forall q, In q patterns -> rejects q D) ->
  ResolvePath (NewResolver patterns) D = Returns (D, Some ErrRouteNotFound).
Proof.
  intros H. rewrite <- (app_nil_r patterns).
  rewrite ResolvePath_skip by assumption. reflexivity.
Qed.

(** Every list of patterns either is passed over as a whole, or splits at
    the first pattern that is not passed over. *)
Lemma first_decisive patterns D :
  (forall q, In q patterns -> rejects q D)
  \/ exists pre p post,
       patterns = (pre ++ p :: post)%list
       /\ (forall q, In q pre -> rejects q D) /\ ~ rejects p D.
Proof.
  induction patterns as [|p rest IH].
  - left. intros q [].
  - destruct (single_cases p D) as [H|[H|[H|[x H]]]].
    2: { destruct IH as [IH|(pre & p' & post & -> & Hpre & Hp')].
         - left. intros q [<-|Hq]; auto.
         - right. exists (p :: pre), p', post. repeat split; auto.
           intros q [<-|Hq]; auto. }
    all: right; exists [], p, rest; repeat split;
      [intros q []|unfold rejects; rewrite H; discriminate].
Qed.

(** An error of the regular matcher, when it is reached, is the result. *)
Lemma glob_error_alone p D ok e :
  reachesGlob p D -> path.Match p D = (ok, Some e) ->
  ResolvePath (NewResolver [p]) D = Returns (D, Some e).
Proof.
  intros Hreach Hm.
  unfold reachesGlob, ResolvePath, NewResolver in *.
  cbn [paths ResolvePath_loop]. rewrite Hm.
  destruct Hreach as [->|[err ->]];
    [|destruct (HasSuffix p "**")]; now destruct ok.
Qed.

End resolver_facts.

(** ** [subtreeMatch] and ["/**"] patterns *)

Module subtree_facts.

Import strings path path_facts strings_facts resolver_facts.

(** [subtreeMatch] returns exactly when the capacity of the split covers
    [countSlash]; otherwise the slice expression panics. *)
Lemma subtreeMatch_outcome r D p :
  String.eqb p "**" = false ->
  Count p "/" <> 0 ->
  (Count p "/" <= length D + 1 ->
     exists v, subtreeMatch r D p = Returns v)
  /\ (length D + 1 < Count p "/" ->
        subtreeMatch r D p
        = Panics (SliceBoundsOutOfRange (Count p "/") (length D + 1))).
Proof.
  intros Hp Hk. unfold subtreeMatch, slice_to. rewrite Hp.
  apply Nat.eqb_neq in Hk. rewrite Hk, cap_SplitN.
  split; intros H.
  - replace (Count p "/" <=? Nat.min (length D + 1) (Count p "/" + 1))
      with true by (symmetry; apply Nat.leb_le; lia).
    destruct (Match _ _) as [[] [e|]]; cbn; eauto.
  - replace (Count p "/" <=? Nat.min (length D + 1) (Count p "/" + 1))
      with false by (symmetry; apply Nat.leb_gt; lia).
    now replace (Nat.min (length D + 1) (Count p "/" + 1))
      with (length D + 1) by lia.
Qed.

(** [subtreeMatch] returns for every pattern with at most [len(D)+1]
    slashes, and so does [ResolvePath] when all its patterns are such. *)
Lemma subtreeMatch_returns r D p :
  Count p "/" <= length D + 1 -> exists v, subtreeMatch r D p = Returns v.
Proof.
  intros H.
  destruct (String.eqb p "**") eqn:Hp;
    [unfold subtreeMatch; rewrite Hp; eauto|].
  destruct (Nat.eq_dec (Count p "/") 0) as [Hk|Hk].
  - unfold subtreeMatch. rewrite Hp, Hk. cbn. eauto.
  - now apply subtreeMatch_outcome.
Qed.

Lemma ResolvePath_returns patterns D :
  (forall q, In q patterns -> Count q "/" <= length D + 1) ->
  exists v, ResolvePath (NewResolver patterns) D = Returns v.
Proof.
  induction patterns as [|p rest IH]; intros H; [cbn; eauto|].
  rewrite ResolvePath_cons.
  destruct (single_cases p D) as [Hm|[Hr|[He|[x Hx]]]].
  - rewrite Hm. eauto.
  - rewrite Hr. apply IH. intros q Hq. apply H. now right.
  - rewrite He. eauto.
  - exfalso. revert Hx.
    unfold ResolvePath, NewResolver. cbn [paths ResolvePath_loop].
    destruct (subtreeMatch_returns {| paths := [p] |} D p) as [[ok err] ->];
      [apply H; now left|].
    destruct (HasSuffix p "**"), ok, (Match p D) as [[] [e|]]; discriminate.
Qed.

(** A [**] pattern without a slash (other than [**] itself): the error of
    [subtreeMatch] is dropped by [ResolvePath], which goes on to the
    regular matcher as for any other pattern. *)
Lemma illegal_subtree_is_plain_glob p rest D :
  HasSuffix p "**" = true ->
  String.eqb p "**" = false ->
  Count p "/" = 0 ->
  ResolvePath (NewResolver (p :: rest)) D =
  match Match p D with
  | (true, None) => Returns (p, None)
  | (_, Some e) => Returns (D, Some e)
  | (false, None) => ResolvePath (NewResolver rest) D
  end.
Proof.
  intros Hs Hp Hk.
  unfold ResolvePath, NewResolver. cbn [paths ResolvePath_loop].
  rewrite (ResolvePath_loop_receiver _ {| paths := rest |}).
  unfold subtreeMatch. rewrite Hs, Hp, Hk. cbn [Nat.eqb].
  destruct (Match p D) as [[] [e|]]; reflexivity.
Qed.

(** What [ResolvePath] does with the one pattern [P ++ "/**"], for a
    descriptor with at least as many slashes as [P]. *)
Lemma subtree_pattern_alone P D :
  Index P "/**" = None ->
  CountByte P "/" <= CountByte D "/" ->
  ResolvePath (NewResolver [P ++ "/**"]) D =
  match Match P (keep (CountByte P "/") D) with
  | (true, None) => Returns (P ++ "/**", None)
  | _ => match Match (P ++ "/**") D with
         | (true, None) => Returns (P ++ "/**", None)
         | (_, Some e) => Returns (D, Some e)
         | (false, None) => Returns (D, Some ErrRouteNotFound)
         end
  end.
Proof.
  intros HP HD.
  unfold ResolvePath, NewResolver. cbn [paths ResolvePath_loop].
  rewrite HasSuffix_subtree. unfold subtreeMatch.
  rewrite subtree_not_universal, Count_subtree. cbn [Nat.eqb].
  destruct (SplitN_keep _ D HD) as (l & Hl & HJ).
  rewrite Hl, HJ, Replace_subtree by assumption.
  destruct (Match P _) as [[] [e|]]; cbn [andb isNil];
    destruct (Match (P ++ "/**") D) as [[] [e'|]]; reflexivity.
Qed.

(** The glob reading of a ["/**"] pattern. *)
Lemma subtree_pattern_glob (P D : string) :
  Index P "/**" = None ->
  Count P "/" <= Count D "/" ->
  (matches (P ++ "/**") D
   <-> ((exists X, (D = X \/ exists rest, D = X ++ "/" ++ rest)
                   /\ Count X "/" = Count P "/"
                   /\ path.Match P X = (true, None))
        \/ path.Match (P ++ "/**") D = (true, None))).
Proof.
  cbn [Count]. intros HP HD. unfold matches.
  rewrite subtree_pattern_alone by assumption.
  destruct (keep_decompose _ D HD) as [Hcount Hshape].
  split.
  - intros H.
    destruct (path.Match P (keep (CountByte P "/") D)) as [[] [e|]] eqn:E;
      [| left; eauto | |];
      (destruct (path.Match (P ++ "/**") D) as [[] [e'|]];
       [discriminate H|now right|discriminate H|discriminate H]).
  - intros [(X & HX & Hc & Hm)|Hm].
    + assert (keep (CountByte P "/") D = X) as ->.
      { rewrite <- Hc. destruct HX as [->|[rest ->]].
        - apply keep_all. lia.
        - apply keep_exact. }
      now rewrite Hm.
    + rewrite Hm. now destruct (path.Match P _) as [[] [e|]].
Qed.

End subtree_facts.

(** * The claims *)

Import strings strings_facts resolver_facts subtree_facts.

(** C1 (the code does not do this).  A pattern that ends in [**], is not
    [**] and has no slash, such as [GET **], is said to make [ResolvePath]
    return a pattern-syntax error.  In the code [subtreeMatch] does build the
    error "illegal ** pattern: GET **", but [ResolvePath] drops it: on the
    descriptor [GET /foo] the pattern is passed over (route not found, or
    the next pattern is taken), and on [GET foo] it even matches as a plain
    glob. *)
Theorem C1_illegal_pattern_error_dropped :
  subtreeMatch (NewResolver ["GET **"]) "GET /foo" "GET **"
    = Returns (false, Some (Errorf "illegal ** pattern: GET **"))
  /\ ResolvePath (NewResolver ["GET **"]) "GET /foo"
     = Returns ("GET /foo", Some ErrRouteNotFound)
  /\ ResolvePath (NewResolver ["GET **"; "**"]) "GET /foo"
     = Returns ("**", None)
  /\ ResolvePath (NewResolver ["GET **"]) "GET foo"
     = Returns ("GET **", None).
Proof. repeat split; vm_compute; reflexivity. Qed.

(** C2.  The scenarios of the repository's test: with the ten test patterns
    in order, each descriptor resolves, with no error, to the pattern the
    test expects, and so does the structured request GET /nantucket/1/2/3. *)
Theorem C2_test_scenarios :
  let r := NewResolver testPaths in
  ResolvePath r "GET /loomings" = Returns ("* /loomings", None)
  /\ ResolvePath r "THE /carpet/bag" = Returns ("THE /carpet/bag", None)
  /\ ResolvePath r "POST /carpet/bag" = Returns ("* /carpet/bag", None)
  /\ ResolvePath r "POST /breakfast/123" = Returns ("* /breakfast/*", None)
  /\ ResolvePath r "HEAD /nantucket/1/2/3"
     = Returns ("* /nantucket/*/*/*", None)
  /\ ResolvePath r "PUT /nantucket/1/2" = Returns ("* /nantucket/*/*", None)
  /\ ResolvePath r "THE /counterpane/1/2/3/4"
     = Returns ("THE /counterpane/**", None)
  /\ ResolvePath r "THIS /SHOULD/match/ANYTHING" = Returns ("**", None)
  /\ ResolvePath r "GET /enter/ahab/to/him/stubb/the/pipe"
     = Returns ("* /enter/**", None)
  /\ Resolve r {| Method := "GET"; URL := {| Path := "/nantucket/1/2/3" |} |}
     = Returns ("* /nantucket/*/*/*", None).
Proof. repeat split; vm_compute; reflexivity. Qed.

(** C3 (the code does not do this).  [ResolvePath] is said to return for
    every pattern set and descriptor.  A ["/**"] pattern with [k] slashes
    makes [subtreeMatch] take [parts[0:k]] of a slice whose capacity is at
    most [len(pathName)+1]: for the request GET / and a pattern with seven
    slashes the slice expression is out of range and the call panics; so
    does [ResolvePath] on the empty descriptor with a two-slash pattern. *)
Theorem C3_short_descriptor_panics :
  Resolve (NewResolver ["GET /a/b/c/d/e/f/**"])
          {| Method := "GET"; URL := {| Path := "/" |} |}
    = Panics (SliceBoundsOutOfRange 7 6)
  /\ ResolvePath (NewResolver ["a/b/**"]) ""
     = Panics (SliceBoundsOutOfRange 2 1).
Proof. split; vm_compute; reflexivity. Qed.

(** C4, counterexample.  The pattern [GET /foo/**] (its prefix is not empty
    and has a slash) matches the descriptor [GET /foo], which neither
    begins with [GET /foo/] nor matches the pattern as a plain glob. *)
Lemma C4_counterexample :
  "GET /foo" <> ""
  /\ 1 <= Count "GET /foo" "/"
  /\ ~ subtree_claim_as_stated "GET /foo" "GET /foo".
Proof.
  split; [discriminate|]. split; [cbn; lia|].
  intros [Hto _].
  destruct Hto as [[rest H]|H].
  - vm_compute. reflexivity.
  - apply (f_equal length) in H. rewrite !length_append in H.
    cbn in H. lia.
  - vm_compute in H. discriminate.
Qed.

(** C4, amended.  For a pattern [P ++ "/**"] whose [P] holds no other
    "/**", and a descriptor [D] with at least as many slashes as [P]:
    [ResolvePath] takes the pattern as matching [D] exactly when the glob
    [P] matches a text [X] with as many slashes as [P] such that [D] is [X]
    itself or [X] followed by a slash and anything, or when [D] matches the
    whole pattern as a plain glob.  In particular, when [P] has no glob
    metacharacter: exactly when [D] is [P], or [D] begins with [P] followed
    by a slash, or [D] matches the whole pattern as a plain glob. *)
Theorem C4_subtree_pattern (P D : string) :
  Index P "/**" = None ->
  Count P "/" <= Count D "/" ->
  (matches (P ++ "/**") D
   <-> ((exists X, (D = X \/ exists rest, D = X ++ "/" ++ rest)
                   /\ Count X "/" = Count P "/"
                   /\ path.Match P X = (true, None))
        \/ path.Match (P ++ "/**") D = (true, None)))
  /\ (literal P = true ->
      (matches (P ++ "/**") D
       <-> (D = P
            \/ (exists rest, D = P ++ "/" ++ rest)
            \/ path.Match (P ++ "/**") D = (true, None)))).
Proof.
  intros HP HD.
  pose proof (subtree_pattern_glob P D HP HD) as Hglob.
  split; [exact Hglob|].
  intros Hlit. rewrite Hglob. split.
  - intros [(X & HX & _ & Hm)|Hm]; [|auto].
    apply (literal_facts.Match_literal P X Hlit) in Hm. subst X.
    destruct HX as [->|HX]; auto.
  - intros [->|[[rest ->]|Hm]]; [left|left|now right]; exists P;
      (split; [|split; [reflexivity
                       |now apply literal_facts.Match_literal]]).
    + now left.
    + right. now exists rest.
Qed.

Lemma C4_subtree_pattern_witness :
  (Index "GET /foo" "/**" = None
   /\ Count "GET /foo" "/" <= Count "GET /foo/bar/baz" "/"
   /\ literal "GET /foo" = true)
  /\ (matches ("GET /foo" ++ "/**") "GET /foo/bar/baz"
      <-> ((exists X,
              ("GET /foo/bar/baz" = X
               \/ exists rest, "GET /foo/bar/baz" = X ++ "/" ++ rest)
              /\ Count X "/" = Count "GET /foo" "/"
              /\ path.Match "GET /foo" X = (true, None))
           \/ path.Match ("GET /foo" ++ "/**") "GET /foo/bar/baz"
              = (true, None)))
  /\ (matches ("GET /foo" ++ "/**") "GET /foo/bar/baz"
      <-> ("GET /foo/bar/baz" = "GET /foo"
           \/ (exists rest, "GET /foo/bar/baz" = "GET /foo" ++ "/" ++ rest)
           \/ path.Match ("GET /foo" ++ "/**") "GET /foo/bar/baz"
              = (true, None))).
Proof.
  assert (Count "GET /foo" "/" <= Count "GET /foo/bar/baz" "/") as HD
    by (cbn; lia).
  split; [repeat split; [exact HD]|].
  destruct (C4_subtree_pattern "GET /foo" "GET /foo/bar/baz" eq_refl HD)
    as [Hglob Hlit].
  split; [exact Hglob|exact (Hlit eq_refl)].
Defined.

(** The literal reading at work: [GET /foo/**] matches [GET /foo] itself
    and [GET /foo/bar/baz], not [GET /fool]. *)
Example subtree_literal_examples :
  matches "GET /foo/**" "GET /foo"
  /\ matches "GET /foo/**" "GET /foo/bar/baz"
  /\ rejects "GET /foo/**" "GET /fool".
Proof. repeat split; vm_compute; reflexivity. Qed.

(** C5.  First match wins: [ResolvePath] succeeds with [s] exactly when the
    pattern list splits into patterns that are passed over, then [s], which
    matches, then any patterns at all.  So of two patterns that match, the
    later one is never the result, and what comes after the first match
    (be it a malformed pattern) has no effect. *)
Theorem C5_first_match_wins (patterns : list string) (D s : string) :
  ResolvePath (NewResolver patterns) D = Returns (s, None)
  <-> exists pre post,
        patterns = (pre ++ s :: post)%list
        /\ (forall q, In q pre -> rejects q D)
        /\ matches s D.
Proof.
  split.
  - intros H.
    destruct (first_decisive patterns D)
      as [Hall|(pre & p & post & -> & Hpre & Hp)].
    + rewrite ResolvePath_exhausted in H by assumption. discriminate.
    + rewrite ResolvePath_decided in H by assumption.
      destruct (single_cases p D) as [Hm|[Hr|[He|[x Hx]]]];
        [|contradiction|congruence|congruence].
      assert (p = s) as -> by (unfold matches in Hm; congruence).
      eauto.
  - intros (pre & post & -> & Hpre & Hs).
    rewrite ResolvePath_decided; [exact Hs|exact Hpre|].
    unfold rejects, matches in *. congruence.
Qed.

Lemma C5_first_match_wins_witness :
  ResolvePath (NewResolver ["THE /a"; "* /a/*"; "* /a/b"; "["]) "GET /a/b"
  = Returns ("* /a/*", None).
Proof.
  apply (C5_first_match_wins
           ["THE /a"; "* /a/*"; "* /a/b"; "["] "GET /a/b" "* /a/*").
  exists ["THE /a"], ["* /a/b"; "["].
  split; [reflexivity|]. split; [|reflexivity].
  intros q [<-|[]]. reflexivity.
Defined.

(** C6.  The pattern [**] matches every descriptor: when the patterns
    before it are passed over (no match, no error), [ResolvePath] returns
    [**] with no error, whatever the descriptor and whatever comes after. *)
Theorem C6_universal_wildcard (pre post : list string) (D : string) :
  (forall q, In q pre -> rejects q D) ->
  ResolvePath (NewResolver (pre ++ "**" :: post)) D = Returns ("**", None).
Proof.
  intros Hpre. rewrite ResolvePath_decided.
  - reflexivity.
  - exact Hpre.
  - unfold rejects. cbn. discriminate.
Qed.

Lemma C6_universal_wildcard_witness :
  ResolvePath (NewResolver (["* /loomings"; "THE /counterpane/**"]
                            ++ "**" :: ["* /never"])) "hello"
  = Returns ("**", None).
Proof.
  apply (C6_universal_wildcard
           ["* /loomings"; "THE /counterpane/**"] ["* /never"] "hello").
  intros q [<-|[<-|[]]]; reflexivity.
Defined.

(** C7.  [Resolve] on a request gives what [ResolvePath] gives on the
    request's method, a space and the request's URL path. *)
Theorem C7_Resolve_refines_ResolvePath (r : Resolver) (req : Request) :
  Resolve r req = Resolve_spec r (Method req) (Path (URL req)).
Proof. reflexivity. Qed.

(** C8.  An error of the regular matcher aborts resolution: when the
    patterns before [p] are passed over and [path.Match] reports an error
    for [p], that error is the result, whatever patterns follow, and it is
    not [ErrRouteNotFound]; and [ErrRouteNotFound] is the result exactly
    when every pattern of the set is passed over. *)
Theorem C8_bad_pattern_aborts (patterns : list string) (D : string) :
  (forall pre p post ok e,
      patterns = (pre ++ p :: post)%list ->
      (forall q, In q pre -> rejects q D) ->
      reachesGlob p D ->
      path.Match p D = (ok, Some e) ->
      ResolvePath (NewResolver patterns) D = Returns (D, Some e)
      /\ e <> ErrRouteNotFound)
  /\ (forall s,
         ResolvePath (NewResolver patterns) D
         = Returns (s, Some ErrRouteNotFound)
         <-> s = D /\ forall q, In q patterns -> rejects q D).
Proof.
  split.
  - intros pre p post ok e -> Hpre Hreach Hm.
    pose proof (path_facts.Match_error _ _ _ _ Hm) as ->.
    split; [|discriminate].
    pose proof (glob_error_alone _ _ _ _ Hreach Hm) as H1.
    rewrite ResolvePath_decided; [exact H1|exact Hpre|].
    unfold rejects. rewrite H1. discriminate.
  - intros s. split.
    + intros H.
      destruct (first_decisive patterns D)
        as [Hall|(pre & p & post & -> & Hpre & Hp)].
      * rewrite ResolvePath_exhausted in H by assumption.
        split; [congruence|assumption].
      * rewrite ResolvePath_decided in H by assumption.
        destruct (single_cases p D) as [Hm|[Hr|[He|[x Hx]]]];
          [unfold matches in Hm; congruence|contradiction
          |congruence|congruence].
    + intros [-> Hall]. now apply ResolvePath_exhausted.
Qed.

Lemma C8_bad_pattern_aborts_witness :
  ResolvePath (NewResolver ["* /a"; "GET /[x"; "**"]) "GET /b"
  = Returns ("GET /b", Some ErrBadPattern)
  /\ ErrBadPattern <> ErrRouteNotFound.
Proof.
  apply (proj1 (C8_bad_pattern_aborts ["* /a"; "GET /[x"; "**"] "GET /b")
               ["* /a"] "GET /[x" ["**"] false ErrBadPattern).
  - reflexivity.
  - intros q [<-|[]]. reflexivity.
  - left. reflexivity.
  - reflexivity.
Defined.

(** C9.  In [parseBasicString], once the header has a second word that
    decodes to [full], the guard [len(parts) > 0] on the parts of [full]
    holds whatever [full] is; so when [full] has no colon there is one part
    only, [parts[1]] is read all the same and the call panics with an index
    out of range; and in no case does the call return an error. *)
Theorem C9_password_guard_always_true (header encoded full : string) :
  index (Split header " ") 1 = Returns encoded ->
  base64.DecodeString encoded = (full, None) ->
  (0 <? len (SplitN full ":" 2)) = true
  /\ (Index full ":" = None ->
        len (SplitN full ":" 2) = 1
        /\ parseBasicString header = Panics (IndexOutOfRange 1 1))
  /\ (forall user pass e,
         parseBasicString header <> Returns (user, pass, Some e)).
Proof.
  intros Hword Hdec.
  assert ((len (Split header " ") <? 2) = false) as Hlen.
  { unfold index in Hword.
    destruct (Nat.ltb_spec 1 (len (Split header " "))); [|discriminate].
    apply Nat.ltb_ge. lia. }
  assert (parseBasicString header
          = (call user <- index (SplitN full ":" 2) 0;
             if 0 <? len (SplitN full ":" 2) then
               call pass <- index (SplitN full ":" 2) 1;
               Returns (user, pass, None)
             else Returns (user, "", None))) as Hparse.
  { unfold parseBasicString. rewrite Hlen, Hword. cbn [bind].
    rewrite Hdec. reflexivity. }
  pose proof (len_SplitN_colon full) as Hparts.
  assert ((0 <? len (SplitN full ":" 2)) = true) as Hguard.
  { apply Nat.ltb_lt. destruct (Index full ":"); lia. }
  split; [exact Hguard|]. split.
  - intros Hnone. rewrite Hnone in Hparts. split; [exact Hparts|].
    rewrite Hparse. unfold index. rewrite Hguard, Hparts. reflexivity.
  - intros user pass e. rewrite Hparse. unfold index.
    rewrite Hguard. cbn [bind].
    destruct (1 <? len (SplitN full ":" 2)); discriminate.
Qed.

Lemma C9_password_guard_always_true_witness :
  (index (Split "Basic dXNlcg==" " ") 1 = Returns "dXNlcg=="
   /\ base64.DecodeString "dXNlcg==" = ("user", None)
   /\ Index "user" ":" = None)
  /\ (0 <? len (SplitN "user" ":" 2)) = true
  /\ len (SplitN "user" ":" 2) = 1
  /\ parseBasicString "Basic dXNlcg==" = Panics (IndexOutOfRange 1 1).
Proof.
  split; [repeat split|].
  destruct (C9_password_guard_always_true
              "Basic dXNlcg==" "dXNlcg==" "user" eq_refl eq_refl)
    as (Hguard & Hbare & _).
  split; [exact Hguard|exact (Hbare eq_refl)].
Defined.

(** C10.  What [ResolvePath] returns beside an error is the descriptor it
    was given, for "route not found" and for a pattern error alike; beside
    a nil error it is one of the registered patterns. *)
Theorem C10_failure_returns_descriptor
        (patterns : list string) (D s : string) (err : option error) :
  ResolvePath (NewResolver patterns) D = Returns (s, err) ->
  match err with
  | Some _ => s = D
  | None => In s patterns
  end.
Proof.
  intros H.
  destruct (first_decisive patterns D)
    as [Hall|(pre & p & post & -> & Hpre & Hp)].
  - rewrite ResolvePath_exhausted in H by assumption.
    injection H as <- <-. reflexivity.
  - rewrite ResolvePath_decided in H by assumption.
    destruct (single_cases p D) as [Hm|[Hr|[He|[x Hx]]]].
    + unfold matches in Hm. rewrite Hm in H. injection H as <- <-.
      apply in_elt.
    + contradiction.
    + rewrite He in H. injection H as <- <-. reflexivity.
    + congruence.
Qed.

Lemma C10_failure_returns_descriptor_witness :
  ResolvePath (NewResolver testPaths_without_wildcard) "GET /nowhere"
  = Returns ("GET /nowhere", Some ErrRouteNotFound)
  /\ "GET /nowhere" = "GET /nowhere".
Proof.
  split; [reflexivity|].
  apply (C10_failure_returns_descriptor
           testPaths_without_wildcard "GET /nowhere" "GET /nowhere"
           (Some ErrRouteNotFound)).
  reflexivity.
Defined.

(** * Further properties of the resolver *)

Module glob_facts.

Import strings path path_facts strings_facts rounds_facts literal_facts.

Lemma to_from n : forall s, to n s ++ from n s = s.
Proof. induction n; destruct s; cbn; congruence. Qed.

Lemma HasSuffix_decompose s suffix :
  HasSuffix s suffix = true -> exists a, s = a ++ suffix.
Proof.
  unfold HasSuffix. intros H. apply andb_prop in H as [_ H].
  apply String.eqb_eq in H.
  exists (to (length s - length suffix) s).
  pose proof (to_from (length s - length suffix) s) as E.
  rewrite H in E. now symmetry.
Qed.

Lemma HasPrefix_decompose s : forall L,
  HasPrefix s L = true -> s = L ++ from (length L) s.
Proof.
  induction s as [|c s IH]; intros [|d L]; cbn; try discriminate; auto.
  intros H. apply andb_prop in H as [Hc HL].
  apply Ascii.eqb_eq in Hc. subst d. f_equal. now apply IH.
Qed.

Lemma HasPrefix_append L t : HasPrefix (L ++ t) L = true.
Proof. induction L; cbn; [reflexivity|]. now rewrite Ascii.eqb_refl. Qed.

Lemma literal_append a b : literal (a ++ b) = literal a && literal b.
Proof.
  induction a as [|c a IH]; cbn [append literal]; [reflexivity|].
  rewrite IH. now rewrite andb_assoc.
Qed.

(** A pattern that ends in a literal byte does not end in [**]. *)
Lemma ends_literal_no_suffix L :
  literal L = true -> L <> "" ->
  forall A, HasSuffix (A ++ L) "**" = false.
Proof.
  intros HL HN A. apply not_true_is_false. intros H.
  apply HasSuffix_decompose in H as [a H]. revert a H.
  induction A as [|c A IH]; intros a H.
  - cbn in H. subst L. rewrite literal_append in HL.
    apply andb_prop in HL as [_ HL]. discriminate.
  - destruct a as [|d a].
    + cbn in H. injection H as -> H.
      destruct A as [|c A]; cbn in H.
      * subst L. discriminate.
      * injection H as -> H. destruct A; [now destruct L|discriminate].
    + cbn in H. injection H as _ H. eauto.
Qed.

Lemma literal_no_suffix P : literal P = true -> HasSuffix P "**" = false.
Proof.
  intros H. apply not_true_is_false. intros HS.
  apply HasSuffix_decompose in HS as [a ->].
  rewrite literal_append in H. apply andb_prop in H as [_ H]. discriminate.
Qed.

(** A literal followed by one star does not end in [**]. *)
Lemma literal_star_no_suffix L :
  literal L = true -> HasSuffix (L ++ "*") "**" = false.
Proof.
  intros HL. apply not_true_is_false. intros H.
  apply HasSuffix_decompose in H as [a H]. revert a H.
  induction L as [|c L IH]; intros a H.
  - destruct a as [|d [|e a]]; discriminate.
  - apply literal_cons in HL as (Hs & _ & _ & _ & HL).
    destruct a as [|d a]; cbn in H.
    + injection H as -> _. discriminate.
    + injection H as _ H. eauto.
Qed.

(** What [ResolvePath] does with one pattern that does not end in [**]. *)
Lemma regular_alone p D :
  HasSuffix p "**" = false ->
  ResolvePath (NewResolver [p]) D =
  match Match p D with
  | (true, None) => Returns (p, None)
  | (_, Some e) => Returns (D, Some e)
  | (false, None) => Returns (D, Some ErrRouteNotFound)
  end.
Proof.
  intros H. unfold ResolvePath, NewResolver. cbn [paths ResolvePath_loop].
  rewrite H. now destruct (Match p D) as [[] [e|]].
Qed.

(** *** Stars after a literal *)

Lemma skipStars_allStars c stars :
  allStars (String c stars) = true ->
  skipStars (String c stars) = (true, "").
Proof.
  revert c. induction stars as [|d stars IH]; intros c H;
    cbn [allStars] in H; apply andb_prop in H as [Hc H];
    change (skipStars (String c ?s))
      with (if isByte c "*" then (true, snd (skipStars s))
            else (false, String c s));
    rewrite Hc.
  - reflexivity.
  - now rewrite IH.
Qed.

Lemma Match_stars c stars t :
  allStars (String c stars) = true ->
  Match (String c stars) t = (noSlash t, None).
Proof.
  intros H. unfold Match. cbn [length Match_loop]. unfold scanChunk.
  rewrite skipStars_allStars by assumption. reflexivity.
Qed.

Lemma checkRest_stars c stars rounds :
  allStars (String c stars) = true ->
  checkRest (S rounds) (String c stars) = (false, None).
Proof.
  intros H. cbn [checkRest]. unfold scanChunk.
  rewrite skipStars_allStars by assumption. cbn. now destruct rounds.
Qed.

Lemma scan_literal_star L rest :
  literal L = true ->
  scan false (L ++ String "*" rest) = (L, String "*" rest).
Proof.
  induction L as [|c L IH]; intros H; [reflexivity|].
  apply literal_cons in H as (Hs & _ & Hk & Hb & HL).
  cbn [append scan]. rewrite Hb, Hs, Hk. cbn [andb].
  destruct (isByte c "]"); now rewrite IH.
Qed.

(** A literal followed by stars matches the descriptors that begin with
    the literal and go on without a slash; it never reports an error. *)
Lemma Match_literal_stars L c stars D :
  literal L = true -> allStars (String c stars) = true ->
  Match (L ++ String c stars) D
  = (HasPrefix D L && noSlash (from (length L) D), None).
Proof.
  intros HL HS.
  destruct L as [|l L]; [now apply Match_stars|].
  pose proof HS as HS'. cbn [allStars] in HS'.
  apply andb_prop in HS' as [Hc' _].
  assert (c = "*"%char) as ->.
  { unfold isByte in Hc'. cbn in Hc'.
    destruct (Ascii.eqb_spec c "*"); [assumption|discriminate]. }
  unfold Match. cbn [append length Match_loop].
  assert (scanChunk (String l (L ++ String "*" stars))
          = (false, String l L, String "*" stars)) as ->.
  { unfold scanChunk. pose proof HL as HL'.
    apply literal_cons in HL' as (Hs & _).
    cbn [skipStars]. rewrite Hs.
    change (String l (L ++ String "*" stars))
      with (String l L ++ String "*" stars).
    now rewrite scan_literal_star. }
  cbn [andb]. unfold matchChunk.
  rewrite matchChunk_loop_literal by (auto; lia).
  destruct (HasPrefix D (String l L)); cbn [andb].
  - cbn [length Nat.ltb Nat.leb]. rewrite orb_true_r.
    rewrite Match_enough_rounds
      by (rewrite length_append; cbn [length]; lia).
    now apply Match_stars.
  - now apply checkRest_stars.
Qed.

(** A literal pattern never makes [Match] report an error. *)
Lemma Match_literal_no_error P D :
  literal P = true -> snd (Match P D) = None.
Proof.
  intros HL. unfold Match.
  destruct P as [|c P]; [reflexivity|].
  cbn [length Match_loop]. rewrite scanChunk_literal by assumption.
  cbn [andb]. unfold matchChunk.
  rewrite matchChunk_loop_literal by (auto; lia).
  destruct (HasPrefix D (String c P)); cbn [andb length Nat.ltb Nat.leb];
    [rewrite orb_false_r;
     destruct (length (from (S (length P)) D) =? 0)|];
    try reflexivity.
  now destruct (length P).
Qed.

(** *** A star before a literal *)

Lemma matchChunk_literal L s :
  literal L = true ->
  matchChunk L s = if HasPrefix s L then (from (length L) s, true, None)
                   else ("", false, None).
Proof. intros H. apply matchChunk_loop_literal; auto. Qed.

Lemma HasPrefix_exact s L :
  HasPrefix s L = true -> from (length L) s = "" -> s = L.
Proof.
  intros H E. apply HasPrefix_decompose in H. rewrite E in H.
  now rewrite append_empty_r in H.
Qed.

Lemma from_self L : from (length L) L = "".
Proof.
  pose proof (from_length L "") as H. now rewrite append_empty_r in H.
Qed.

(** The search after the star, for a last and literal chunk: it succeeds
    exactly when the name is the chunk after at least one byte, none of
    them a slash. *)
Lemma starLoop_literal L : literal L = true -> forall D,
  match starLoop L "" D with
  | StarFound t =>
      t = "" /\ exists v, v <> "" /\ noSlash v = true /\ D = v ++ L
  | StarError _ => False
  | StarNone =>
      forall v, v <> "" -> noSlash v = true -> D <> v ++ L
  end.
Proof.
  intros HL. induction D as [|c D IH]; cbn [starLoop].
  - intros [|d v] Hv _ H; [congruence|discriminate].
  - destruct (isByte c "/") eqn:Ec.
    + intros [|d v] Hv Hs H; [congruence|].
      cbn in H. injection H as <- _.
      unfold noSlash in Hs. cbn in Hs. unfold isByte in Ec. cbn in Ec.
      destruct (Ascii.eqb c "/"); discriminate.
    + assert (forall v, noSlash v = true -> noSlash (String c v) = true)
        as Hcons.
      { intros v. unfold noSlash, isByte in *. cbn in *.
        destruct (Ascii.eqb c "/"); [discriminate|].
        now destruct (Index v "/"). }
      assert (forall v, noSlash (String c v) = true -> noSlash v = true)
        as Huncons.
      { intros v. unfold noSlash, isByte in *. cbn in *.
        destruct (Ascii.eqb c "/"); [discriminate|].
        now destruct (Index v "/"). }
      rewrite matchChunk_literal by assumption.
      destruct (HasPrefix D L) eqn:EP.
      * cbn [length Nat.eqb andb].
        destruct (0 <? length (from (length L) D)) eqn:E0.
        -- destruct (starLoop L "" D) as [t|e|].
           ++ destruct IH as (-> & v & Hv & Hs & ->). split; [reflexivity|].
              exists (String c v). repeat split; [discriminate|auto].
           ++ exact IH.
           ++ intros [|d v] Hv Hs H; [congruence|].
              cbn in H. injection H as <- H.
              destruct v as [|e v].
              ** cbn in H. subst D. rewrite from_self in E0. discriminate.
              ** apply (IH (String e v)); [discriminate|auto|exact H].
        -- apply Nat.ltb_ge in E0.
           assert (from (length L) D = "") as E
             by (destruct (from (length L) D); [reflexivity|cbn in E0; lia]).
           rewrite E. split; [reflexivity|].
           exists (String c ""). repeat split; [discriminate|auto|].
           cbn. f_equal. now apply HasPrefix_exact.
      * destruct (starLoop L "" D) as [t|e|].
        -- destruct IH as (-> & v & Hv & Hs & ->). split; [reflexivity|].
           exists (String c v). repeat split; [discriminate|auto].
        -- exact IH.
        -- intros [|d v] Hv Hs H; [congruence|].
           cbn in H. injection H as <- H.
           destruct v as [|e v].
           ++ cbn in H. subst D. now rewrite HasPrefix_refl in EP.
           ++ apply (IH (String e v)); [discriminate|auto|exact H].
Qed.

(** A star followed by a literal matches the descriptors that end with the
    literal after any bytes but a slash; it never reports an error. *)
Lemma Match_star_literal L D :
  literal L = true -> L <> "" ->
  exists b, Match (String "*" L) D = (b, None)
            /\ (b = true <-> exists v, noSlash v = true /\ D = v ++ L).
Proof.
  intros HL HN. unfold Match. cbn [length Match_loop].
  assert (scanChunk (String "*" L) = (true, L, "")) as ->.
  { unfold scanChunk. cbn [skipStars]. cbn [isByte String.eqb Ascii.eqb
      Bool.eqb andb]. rewrite skipStars_literal by assumption.
    cbn [snd]. now rewrite scan_literal. }
  assert ((length L =? 0) = false) as ->
    by (destruct L; [congruence|reflexivity]).
  cbn [andb]. rewrite matchChunk_literal by assumption.
  pose proof (starLoop_literal L HL D) as HS.
  assert (forall t, Match_loop (length L) "" t = (length t =? 0, None)) as HM
    by (intros t; now destruct (length L)).
  assert (match starLoop L "" D with
          | StarFound t => Match_loop (length L) "" t
          | StarError e => (false, Some e)
          | StarNone => checkRest 0 ""
          end
          = (match starLoop L "" D with StarFound _ => true | _ => false end,
             None)) as Hstar.
  { destruct (starLoop L "" D) as [t|e|]; [|contradiction|reflexivity].
    destruct HS as [-> _]. now rewrite HM. }
  assert ((match starLoop L "" D with StarFound _ => true | _ => false end)
          = true
          <-> exists v, v <> "" /\ noSlash v = true /\ D = v ++ L) as Hiff.
  { destruct (starLoop L "" D) as [t|e|].
    - split; [intros _; now destruct HS|reflexivity].
    - contradiction.
    - split; [discriminate|]. intros (v & Hv & Hs & Hd).
      exfalso. now apply (HS v). }
  change (length "") with 0.
  destruct (HasPrefix D L) eqn:EP; cbn [andb].
  - cbn [Nat.ltb Nat.leb]. rewrite orb_false_r.
    destruct (length (from (length L) D) =? 0) eqn:E0.
    + rewrite HM, E0. eexists. split; [reflexivity|].
      split; [intros _|reflexivity].
      exists "". split; [reflexivity|]. cbn.
      apply HasPrefix_exact; [assumption|].
      apply Nat.eqb_eq in E0. now destruct (from (length L) D).
    + rewrite Hstar. eexists. split; [reflexivity|].
      rewrite Hiff. split.
      * intros (v & _ & Hs & Hd). eauto.
      * intros (v & Hs & Hd). exists v. repeat split; auto.
        intros ->. cbn in Hd. subst D. now rewrite from_self in E0.
  - rewrite Hstar. eexists. split; [reflexivity|].
    rewrite Hiff. split.
    + intros (v & _ & Hs & Hd). eauto.
    + intros (v & Hs & Hd). exists v. repeat split; auto.
      intros ->. cbn in Hd. subst D. now rewrite HasPrefix_refl in EP.
Qed.

(** *** A star, a literal, and stars *)

Lemma noSlash_count v : noSlash v = true <-> CountByte v "/" = 0.
Proof.
  unfold noSlash. pose proof (Index_slash v) as H.
  destruct (Index v "/") as [m|]; [|tauto].
  destruct H as (X & R & -> & _). rewrite CountByte_append. cbn.
  split; [discriminate|lia].
Qed.

Lemma noSlash_cons c v :
  isByte c "/" = false -> noSlash (String c v) = noSlash v.
Proof.
  unfold noSlash, isByte. cbn. intros H.
  destruct (Ascii.eqb c "/"); [discriminate|].
  now destruct (Index v "/").
Qed.

(** The search after the star, for a literal chunk that is not the last:
    it stops at the first place where the chunk matches. *)
Lemma starLoop_literal_first L pattern :
  literal L = true -> pattern <> "" -> forall D,
  match starLoop L pattern D with
  | StarFound t =>
      exists v, v <> "" /\ noSlash v = true /\ D = v ++ L ++ t
  | StarError _ => False
  | StarNone => True
  end.
Proof.
  intros HL HP. induction D as [|c D IH]; cbn [starLoop]; [exact I|].
  destruct (isByte c "/") eqn:Ec; [exact I|].
  rewrite matchChunk_literal by assumption.
  assert ((length pattern =? 0) = false) as ->
    by (destruct pattern; [congruence|reflexivity]).
  destruct (HasPrefix D L) eqn:EP; cbn [andb].
  - exists (String c ""). repeat split; [discriminate| |].
    + now rewrite noSlash_cons.
    + cbn. f_equal. now apply HasPrefix_decompose.
  - destruct (starLoop L pattern D) as [t|e|]; auto.
    destruct IH as (v & Hv & Hs & ->).
    exists (String c v). repeat split; [discriminate|].
    now rewrite noSlash_cons.
Qed.

(** A star, a literal and stars: no error, and a match only of a
    descriptor that holds the literal after bytes other than a slash. *)
Lemma Match_star_literal_stars L c stars D :
  literal L = true -> L <> "" -> allStars (String c stars) = true ->
  exists b, Match (String "*" (L ++ String c stars)) D = (b, None)
            /\ (b = true ->
                exists v t, noSlash v = true /\ D = v ++ L ++ t).
Proof.
  intros HL HN HS.
  pose proof HS as HS'. cbn [allStars] in HS'.
  apply andb_prop in HS' as [Hc' _].
  assert (c = "*"%char) as ->.
  { unfold isByte in Hc'. cbn in Hc'.
    destruct (Ascii.eqb_spec c "*"); [assumption|discriminate]. }
  unfold Match. cbn [length Match_loop].
  assert (scanChunk (String "*" (L ++ String "*" stars))
          = (true, L, String "*" stars)) as ->.
  { unfold scanChunk.
    change (skipStars (String "*" ?s)) with (true, snd (skipStars s)).
    destruct L as [|l L]; [congruence|].
    pose proof HL as HL'. apply literal_cons in HL' as (Hs & _).
    cbn [append skipStars]. rewrite Hs. cbn [snd].
    change (String l (L ++ String "*" stars))
      with (String l L ++ String "*" stars).
    now rewrite scan_literal_star. }
  assert ((length L =? 0) = false) as ->
    by (destruct L; [congruence|reflexivity]).
  cbn [andb]. rewrite matchChunk_literal by assumption.
  assert (forall t, Match_loop (length (L ++ String "*" stars))
                               (String "*" stars) t
                    = (noSlash t, None)) as HM.
  { intros t. rewrite Match_enough_rounds
      by (rewrite length_append; lia).
    now apply Match_stars. }
  destruct (HasPrefix D L) eqn:EP; cbn [andb length Nat.ltb Nat.leb].
  - rewrite orb_true_r, HM. eexists. split; [reflexivity|].
    intros _. exists "", (from (length L) D). split; [reflexivity|].
    now apply HasPrefix_decompose.
  - pose proof (starLoop_literal_first L (String "*" stars) HL
                  ltac:(discriminate) D) as HL1.
    destruct (starLoop L (String "*" stars) D) as [t|e|].
    + rewrite HM. eexists. split; [reflexivity|].
      intros _. destruct HL1 as (v & _ & Hs & Hd). eauto.
    + contradiction.
    + rewrite checkRest_stars by assumption.
      eexists. split; [reflexivity|discriminate].
Qed.

Lemma star_literal_no_subtree L :
  literal L = true -> Index (String "*" L) "/**" = None.
Proof.
  intros HL. cbn [Index HasPrefix]. cbn.
  now rewrite (literal_no_subtree L HL).
Qed.

End glob_facts.

Module resolver_more.

Import strings path path_facts strings_facts resolver_facts subtree_facts
       literal_facts glob_facts.

Lemma append_assoc a b c : (a ++ b) ++ c = a ++ b ++ c.
Proof. induction a; cbn; congruence. Qed.

(** The loop over two lists of patterns, one after the other. *)
Lemma ResolvePath_app ps qs D :
  ResolvePath (NewResolver (ps ++ qs)) D =
  match ResolvePath (NewResolver ps) D with
  | Returns (_, Some ErrRouteNotFound) => ResolvePath (NewResolver qs) D
  | o => o
  end.
Proof.
  induction ps as [|p ps IH]; [reflexivity|].
  cbn [app]. rewrite (ResolvePath_cons p (ps ++ qs)), (ResolvePath_cons p ps).
  destruct (single_cases p D) as [H|[H|[H|[x H]]]]; rewrite H; auto.
Qed.

(** A pattern alone panics exactly when it is a [**] pattern, not [**]
    itself, with more slashes than the descriptor has bytes plus one. *)
Lemma single_panics_iff p D x :
  ResolvePath (NewResolver [p]) D = Panics x
  <-> HasSuffix p "**" = true /\ p <> "**"
      /\ length D + 1 < Count p "/"
      /\ x = SliceBoundsOutOfRange (Count p "/") (length D + 1).
Proof.
  unfold ResolvePath, NewResolver. cbn [paths ResolvePath_loop].
  destruct (HasSuffix p "**") eqn:Hs.
  2: { split; [|intros [? _]; discriminate].
       destruct (Match p D) as [[] [e|]]; discriminate. }
  destruct (String.eqb_spec p "**") as [->|Hp].
  { split; [cbn; discriminate|]. intros (_ & H & _). congruence. }
  destruct (Nat.eq_dec (Count p "/") 0) as [Hk|Hk].
  { unfold subtreeMatch. apply String.eqb_neq in Hp. rewrite Hp, Hk.
    cbn [Nat.eqb]. split; [|lia].
    destruct (Match p D) as [[] [e|]]; discriminate. }
  apply String.eqb_neq in Hp.
  destruct (subtreeMatch_outcome {| paths := [p] |} D p Hp Hk) as [Hle Hgt].
  apply String.eqb_neq in Hp.
  destruct (Nat.lt_ge_cases (length D + 1) (Count p "/")) as [Hlt|Hge].
  - rewrite (Hgt Hlt). split.
    + intros H. injection H as <-. auto.
    + intros (_ & _ & _ & ->). reflexivity.
  - destruct (Hle Hge) as [[ok err] ->]. split; [|lia].
    destruct ok, (Match p D) as [[] [e|]]; discriminate.
Qed.

(** A literal pattern matches itself only. *)
Lemma literal_pattern_exact P D :
  literal P = true ->
  (matches P D <-> D = P) /\ (D <> P -> rejects P D).
Proof.
  intros HL. unfold matches, rejects.
  rewrite regular_alone by now apply literal_no_suffix.
  pose proof (Match_literal P D HL) as HM.
  pose proof (Match_literal_no_error P D HL) as HE.
  destruct (path.Match P D) as [[] [e|]]; try discriminate HE.
  - split; [split; [intros _; now apply HM|reflexivity]|].
    intros H. exfalso. apply H. now apply HM.
  - split; [split; [discriminate|]|reflexivity].
    intros H. apply HM in H. discriminate.
Qed.

(** The pattern [ResolvePath] returns with no error matches the
    descriptor by itself. *)
Lemma success_matches patterns D s :
  ResolvePath (NewResolver patterns) D = Returns (s, None) -> matches s D.
Proof.
  intros H.
  destruct (first_decisive patterns D)
    as [Hall|(pre & p & post & -> & Hpre & Hp)].
  - rewrite ResolvePath_exhausted in H by assumption. discriminate.
  - rewrite ResolvePath_decided in H by assumption.
    destruct (single_cases p D) as [Hm|[Hr|[He|[x Hx]]]];
      [|contradiction|congruence|congruence].
    unfold matches in *. congruence.
Qed.

End resolver_more.

Import literal_facts glob_facts resolver_more.

(** X1.  Resolving against the patterns [ps] followed by [qs] is resolving
    against [ps], and against [qs] only when [ps] gives "route not found":
    a match, a pattern error or a panic among [ps] is the result whatever
    is registered after. *)
Theorem X1_ResolvePath_append (ps qs : list string) (D : string) :
  ResolvePath (NewResolver (ps ++ qs)) D =
  match ResolvePath (NewResolver ps) D with
  | Returns (_, Some ErrRouteNotFound) => ResolvePath (NewResolver qs) D
  | o => o
  end.
Proof. apply ResolvePath_app. Qed.

(** X2.  The error [ResolvePath] returns is [ErrRouteNotFound] or
    [path.ErrBadPattern], for every pattern set and descriptor; the error
    that [subtreeMatch] builds is never returned. *)
Theorem X2_ResolvePath_errors
        (patterns : list string) (D s : string) (e : error) :
  ResolvePath (NewResolver patterns) D = Returns (s, Some e) ->
  e = ErrRouteNotFound \/ e = ErrBadPattern.
Proof.
  intros H.
  destruct (first_decisive patterns D)
    as [Hall|(pre & p & post & -> & Hpre & Hp)].
  - rewrite ResolvePath_exhausted in H by assumption. left. congruence.
  - rewrite ResolvePath_decided in H by assumption.
    destruct (single_cases p D) as [Hm|[Hr|[He|[x Hx]]]].
    + unfold matches in Hm. congruence.
    + contradiction.
    + right. congruence.
    + congruence.
Qed.

Lemma X2_ResolvePath_errors_witness :
  ResolvePath (NewResolver ["GET **"; "GET /[x"]) "GET /b"
  = Returns ("GET /b", Some ErrBadPattern)
  /\ (ErrBadPattern = ErrRouteNotFound \/ ErrBadPattern = ErrBadPattern).
Proof.
  split; [reflexivity|].
  apply (X2_ResolvePath_errors ["GET **"; "GET /[x"] "GET /b" "GET /b").
  reflexivity.
Defined.

(** X3.  [ResolvePath] panics exactly when the first pattern that is not
    passed over ends in [**], is not [**], and has more slashes than the
    descriptor has bytes plus one; the panic is the slice bound of
    [parts[0:countSlash]]. *)
Theorem X3_ResolvePath_panics_iff
        (patterns : list string) (D : string) (x : panic) :
  ResolvePath (NewResolver patterns) D = Panics x
  <-> exists pre p post,
        patterns = (pre ++ p :: post)%list
        /\ (forall q, In q pre -> rejects q D)
        /\ HasSuffix p "**" = true /\ p <> "**"
        /\ length D + 1 < Count p "/"
        /\ x = SliceBoundsOutOfRange (Count p "/") (length D + 1).
Proof.
  split.
  - intros H.
    destruct (first_decisive patterns D)
      as [Hall|(pre & p & post & -> & Hpre & Hp)].
    + rewrite ResolvePath_exhausted in H by assumption. discriminate.
    + rewrite ResolvePath_decided in H by assumption.
      apply single_panics_iff in H. exists pre, p, post. auto.
  - intros (pre & p & post & -> & Hpre & Hrest).
    apply single_panics_iff in Hrest.
    rewrite ResolvePath_decided; [exact Hrest|exact Hpre|].
    unfold rejects. rewrite Hrest. discriminate.
Qed.

Lemma X3_ResolvePath_panics_iff_witness :
  ResolvePath (NewResolver ["GET /a"; "/a/b/c/**"; "**"]) "x"
  = Panics (SliceBoundsOutOfRange 4 2).
Proof.
  apply (X3_ResolvePath_panics_iff ["GET /a"; "/a/b/c/**"; "**"] "x").
  exists ["GET /a"], "/a/b/c/**", ["**"].
  split; [reflexivity|]. split.
  - intros q [<-|[]]. reflexivity.
  - split; [reflexivity|]. split; [discriminate|].
    split; [cbn; lia|reflexivity].
Defined.

(** X4.  A pattern without glob metacharacters matches its own text and
    nothing else, and is passed over (no error) for any other descriptor. *)
Theorem X4_literal_pattern_exact (P D : string) :
  literal P = true ->
  (matches P D <-> D = P) /\ (D <> P -> rejects P D).
Proof. apply literal_pattern_exact. Qed.

Lemma X4_literal_pattern_exact_witness :
  literal "THE /carpet/bag" = true
  /\ (matches "THE /carpet/bag" "THE /carpet/bag"
      <-> "THE /carpet/bag" = "THE /carpet/bag")
  /\ ("GET /carpet/bag" <> "THE /carpet/bag"
      -> rejects "THE /carpet/bag" "GET /carpet/bag").
Proof.
  split; [reflexivity|].
  split.
  - apply (X4_literal_pattern_exact "THE /carpet/bag" "THE /carpet/bag").
    reflexivity.
  - apply (X4_literal_pattern_exact "THE /carpet/bag" "GET /carpet/bag").
    reflexivity.
Defined.


(** X5.  A pattern made of a literal text and one final star (as the
    [GET /foo/*] of the resolver's documentation) matches the descriptors
    that begin with the text and go on without a slash, and is passed over
    (no error) for the others: [GET /foo/bar] matches, [GET /foo/bar/baz]
    does not. *)
Theorem X5_trailing_star_segment (L D : string) :
  literal L = true ->
  (matches (L ++ "*") D <-> exists t, D = L ++ t /\ noSlash t = true)
  /\ (matches (L ++ "*") D \/ rejects (L ++ "*") D).
Proof.
  intros HL. unfold matches, rejects.
  rewrite regular_alone by now apply literal_star_no_suffix.
  rewrite (Match_literal_stars L "*" "" D HL eq_refl).
  destruct (HasPrefix D L) eqn:EP; cbn [andb].
  - apply HasPrefix_decompose in EP.
    destruct (noSlash (from (length L) D)) eqn:ES.
    + split; [|now left]. split; [intros _; eauto|reflexivity].
    + split; [|now right]. split; [discriminate|].
      intros (t & Hd & Ht). exfalso.
      rewrite Hd, from_length in ES. congruence.
  - split; [|now right]. split; [discriminate|].
    intros (t & -> & _). now rewrite HasPrefix_append in EP.
Qed.

Lemma X5_trailing_star_segment_witness :
  literal "GET /foo/" = true
  /\ matches ("GET /foo/" ++ "*") "GET /foo/bar"
  /\ rejects ("GET /foo/" ++ "*") "GET /foo/bar/baz".
Proof.
  split; [reflexivity|].
  split.
  - apply (X5_trailing_star_segment "GET /foo/" "GET /foo/bar" eq_refl).
    exists "bar". split; reflexivity.
  - destruct (X5_trailing_star_segment "GET /foo/" "GET /foo/bar/baz" eq_refl)
      as [_ [H|H]]; [discriminate H|exact H].
Defined.

(** X6.  A pattern made of one star and a literal text (as [* /loomings],
    "any verb") matches the descriptors that end with the text after any
    bytes other than a slash, and is passed over (no error) for the
    others. *)
Theorem X6_any_verb_pattern (L D : string) :
  literal L = true -> L <> "" ->
  (matches ("*" ++ L) D <-> exists v, noSlash v = true /\ D = v ++ L)
  /\ (matches ("*" ++ L) D \/ rejects ("*" ++ L) D).
Proof.
  intros HL HN. unfold matches, rejects.
  rewrite regular_alone by now apply ends_literal_no_suffix.
  destruct (Match_star_literal L D HL HN) as (b & HM & Hb).
  cbn [append]. rewrite HM. destruct b.
  - split; [|now left]. split; [intros _; now apply Hb|reflexivity].
  - split; [|now right]. split; [discriminate|].
    intros H. apply Hb in H. discriminate.
Qed.

Lemma X6_any_verb_pattern_witness :
  (literal " /loomings" = true /\ " /loomings" <> "")
  /\ matches ("*" ++ " /loomings") "GET /loomings"
  /\ rejects ("*" ++ " /loomings") "GET /x/loomings".
Proof.
  split; [split; [reflexivity|discriminate]|].
  assert (" /loomings" <> "") as HN by discriminate.
  split.
  - apply (X6_any_verb_pattern " /loomings" "GET /loomings" eq_refl HN).
    exists "GET". split; reflexivity.
  - destruct (X6_any_verb_pattern " /loomings" "GET /x/loomings" eq_refl HN)
      as [_ [H|H]]; [discriminate H|exact H].
Defined.

(** X7.  A subtree pattern with a literal prefix [P], for a descriptor with
    at least as many slashes as [P]: it matches when the descriptor is [P]
    or begins with [P] followed by a slash, and is passed over (no error)
    otherwise. *)
Theorem X7_subtree_literal (P D : string) :
  literal P = true ->
  Count P "/" <= Count D "/" ->
  (matches (P ++ "/**") D <-> D = P \/ exists rest, D = P ++ "/" ++ rest)
  /\ (matches (P ++ "/**") D \/ rejects (P ++ "/**") D).
Proof.
  intros HL HD.
  pose proof (literal_no_subtree P HL) as HI.
  assert (path.Match (P ++ "/**") D
          = (HasPrefix D (P ++ "/")
             && noSlash (from (length (P ++ "/")) D), None)) as HG.
  { change "/**" with ("/" ++ "**"). rewrite <- append_assoc.
    apply Match_literal_stars; [|reflexivity].
    rewrite literal_append, HL. reflexivity. }
  split.
  - rewrite (subtree_pattern_glob P D HI HD). split.
    + intros [(X & HX & _ & HM)|HM].
      * apply (Match_literal P X HL) in HM. subst X.
        destruct HX as [->|HX]; auto.
      * rewrite HG in HM. injection HM as HM.
        apply andb_prop in HM as [HM _].
        apply HasPrefix_decompose in HM. rewrite append_assoc in HM.
        right. eauto.
    + intros H. left. exists P.
      split; [|split; [reflexivity|now apply Match_literal]].
      destruct H as [->|[rest ->]]; [now left|right; eauto].
  - unfold matches, rejects.
    rewrite subtree_pattern_alone by assumption. rewrite HG.
    pose proof (Match_literal_no_error P
                  (keep (CountByte P "/") D) HL) as HE.
    destruct (path.Match P _) as [[] [e|]]; try discriminate HE; auto;
      destruct (HasPrefix D (P ++ "/") && _); auto.
Qed.

Lemma X7_subtree_literal_witness :
  (literal "GET /assets" = true
   /\ Count "GET /assets" "/" <= Count "GET /assets/img/a.jpg" "/"
   /\ Count "GET /assets" "/" <= Count "GET /assetsx/a" "/")
  /\ matches ("GET /assets" ++ "/**") "GET /assets/img/a.jpg"
  /\ rejects ("GET /assets" ++ "/**") "GET /assetsx/a".
Proof.
  assert (Count "GET /assets" "/" <= Count "GET /assets/img/a.jpg" "/")
    as H1 by (cbn; lia).
  assert (Count "GET /assets" "/" <= Count "GET /assetsx/a" "/")
    as H2 by (cbn; lia).
  split; [repeat split; assumption|].
  split.
  - apply (X7_subtree_literal "GET /assets" "GET /assets/img/a.jpg"
             eq_refl H1).
    right. exists "img/a.jpg". reflexivity.
  - destruct (X7_subtree_literal "GET /assets" "GET /assetsx/a" eq_refl H2)
      as [_ [H|H]]; [discriminate H|exact H].
Defined.

(** X8.  Registering a pattern a second time, later in the list, changes
    nothing: the result is the same with and without the later copy. *)
Theorem X8_duplicate_pattern (pre mid post : list string) (p D : string) :
  ResolvePath (NewResolver (pre ++ p :: mid ++ p :: post)) D
  = ResolvePath (NewResolver (pre ++ p :: mid ++ post)) D.
Proof.
  rewrite !(ResolvePath_app pre).
  destruct (ResolvePath (NewResolver pre) D) as [[s [[]|]]|x]; try reflexivity.
  rewrite (ResolvePath_cons p (mid ++ p :: post)),
          (ResolvePath_cons p (mid ++ post)).
  destruct (single_cases p D) as [H|[H|[H|[x H]]]]; rewrite H; try reflexivity.
  rewrite !(ResolvePath_app mid).
  destruct (ResolvePath (NewResolver mid) D) as [[s' [[]|]]|x];
    try reflexivity.
  rewrite (ResolvePath_cons p post), H. reflexivity.
Qed.

(** * Further properties of the Basic-Auth code *)

Module auth_facts.

Import strings strings_facts rounds_facts glob_facts resolver_more.

(** The first cut of [genSplit]'s loop, for a one-byte separator. *)
Lemma Index_byte c s :
  match Index s (String c "") with
  | None => CountByte s c = 0
  | Some m =>
      exists X R, s = X ++ String c R /\ CountByte X c = 0
                  /\ to (m + 0) s = X /\ from (m + 1) s = R
  end.
Proof.
  induction s as [|d s IH]; cbn; [reflexivity|].
  destruct (Ascii.eqb d c) eqn:E; cbn.
  - apply Ascii.eqb_eq in E. subst d. exists "", s. repeat split.
  - destruct (Index s (String c "")) as [m|]; cbn; [|exact IH].
    destruct IH as (X & R & Hs & HX & Ht & Hf).
    exists (String d X), R. cbn. rewrite E.
    repeat split; [now f_equal|exact HX|now f_equal|exact Hf].
Qed.

Lemma Index_byte_cut c X R :
  CountByte X c = 0 -> Index (X ++ String c R) (String c "") = Some (length X).
Proof.
  induction X as [|d X IH]; cbn; intros H.
  - now rewrite Ascii.eqb_refl.
  - destruct (Ascii.eqb d c); [lia|]. cbn. now rewrite IH.
Qed.

Lemma Index_byte_none c s :
  Index s (String c "") = None <-> CountByte s c = 0.
Proof.
  pose proof (Index_byte c s) as H.
  destruct (Index s (String c "")) as [m|]; [|tauto].
  destruct H as (X & R & -> & _). rewrite CountByte_append. cbn.
  rewrite Ascii.eqb_refl. split; [discriminate|lia].
Qed.

Lemma length_genSplit_loop_byte c rounds : forall s,
  List.length (genSplit_loop rounds s (String c "") 0)
  = S (Nat.min rounds (CountByte s c)).
Proof.
  induction rounds as [|rounds IH]; intros s; [reflexivity|].
  rewrite genSplit_loop_S.
  pose proof (Index_byte c s) as H.
  destruct (Index s (String c "")) as [m|].
  - destruct H as (X & R & Hs & HX & Ht & Hf).
    cbn [length List.length]. rewrite Hf, IH.
    replace (CountByte s c) with (S (CountByte R c))
      by (rewrite Hs, CountByte_append; cbn; rewrite Ascii.eqb_refl; lia).
    lia.
  - rewrite H. cbn. lia.
Qed.

(** [strings.Split(s, sep)] for a one-byte separator: the pieces, with no
    spare capacity. *)
Lemma Split_byte c s :
  Split s (String c "")
  = mkSlice (genSplit_loop (CountByte s c) s (String c "") 0)
            (S (CountByte s c)).
Proof.
  unfold Split, genSplit.
  change (-1 =? 0)%Z with false. change (-1 <? 0)%Z with true.
  change (String.eqb (String c "") "") with false.
  cbv beta iota zeta. cbn [Count].
  pose proof (CountByte_length s c) as L.
  replace (length s + 1 <? CountByte s c + 1) with false
    by (symmetry; apply Nat.ltb_ge; lia).
  replace (CountByte s c + 1 - 1) with (CountByte s c) by lia.
  rewrite length_genSplit_loop_byte, Nat.min_id.
  replace (CountByte s c + 1 - S (CountByte s c)) with 0 by lia.
  cbn [repeat]. now rewrite app_nil_r.
Qed.

(** The second element of the split of a header at its spaces. *)
Lemma Split_second_word header w :
  secondWord header w -> index (Split header " ") 1 = Returns w.
Proof.
  intros (first & tail & -> & Hf & Hw & Ht).
  rewrite Split_byte. unfold index. cbn [len backing].
  rewrite !CountByte_append. cbn [CountByte Ascii.eqb Bool.eqb].
  rewrite Hf, Hw. cbn [Nat.add Nat.ltb Nat.leb].
  rewrite genSplit_loop_S. cbn [append].
  rewrite (Index_byte_cut " " first (w ++ tail) Hf).
  change (nth 1 (?a :: ?l) "") with (nth 0 l "").
  change (length " ") with 1.
  pose proof (from_append first 1 (String " " (w ++ tail))) as F.
  cbn [from] in F. rewrite F. f_equal.
  destruct Ht as [->|[more ->]].
  - rewrite append_empty_r. cbn [CountByte genSplit_loop]. reflexivity.
  - cbn [append CountByte Ascii.eqb Bool.eqb Nat.add].
    rewrite genSplit_loop_S.
    rewrite (Index_byte_cut " " w more Hw).
    change (nth 0 (?a :: ?l) "") with a.
    now rewrite Nat.add_0_r, to_length.
Qed.

Lemma Split_len header :
  len (Split header " ") = S (CountByte header " ").
Proof. now rewrite Split_byte. Qed.

(** The errors of [base64]'s decoder are [CorruptInputError]s. *)
Lemma decodeQuantum_error src : forall si j dbuf srclen rest si' bytes e,
  base64.decodeQuantum src si j dbuf srclen = (rest, si', bytes, Some e) ->
  exists n, e = CorruptInputError n.
Proof.
  induction src as [|c src IH];
    intros si j dbuf srclen rest si' bytes e H;
    cbn [base64.decodeQuantum] in H.
  - destruct (j =? 0); inversion H; eauto.
  - destruct (base64.decodeMap c).
    { destruct (S j =? 4); [discriminate|]. eauto. }
    destruct (base64.isNewline c); [eauto|].
    destruct (negb (base64.isPad c)); [inversion H; eauto|].
    destruct (j <? 2); [inversion H; eauto|].
    destruct (j =? 2).
    + destruct (base64.skipNewlines src (S si)) as [rest1 si1].
      destruct rest1 as [|c' rest'].
      * inversion H; eauto.
      * destruct (base64.isPad c').
        -- destruct (base64.skipNewlines rest' (S si1)) as [rest2 si2].
           destruct (0 <? length rest2); inversion H; eauto.
        -- inversion H; eauto.
    + destruct (base64.skipNewlines src (S si)) as [rest1 si1].
      destruct (0 <? length rest1); inversion H; eauto.
Qed.

Lemma Decode_loop_error rounds : forall src si srclen bytes e,
  base64.Decode_loop rounds src si srclen = (bytes, Some e) ->
  exists n, e = CorruptInputError n.
Proof.
  induction rounds as [|rounds IH]; intros [|c src] si srclen bytes e H;
    cbn [base64.Decode_loop] in H; try discriminate.
  destruct (base64.decodeQuantum (String c src) si 0 [] srclen)
    as [[[rest si'] bs] [e'|]] eqn:E.
  - inversion H; subst. eauto using decodeQuantum_error.
  - destruct (base64.Decode_loop rounds rest si' srclen)
      as [more err] eqn:E'.
    inversion H; subst. eauto.
Qed.

Lemma DecodeString_error s bytes e :
  base64.DecodeString s = (bytes, Some e) -> exists n, e = CorruptInputError n.
Proof. apply Decode_loop_error. Qed.

(** [strings.SplitN(full, ":", 2)], with and without a colon. *)
Lemma SplitN_colon full :
  SplitN full ":" 2
  = match Index full ":" with
    | Some i => mkSlice [to i full; from (i + 1) full] 2
    | None => mkSlice (full :: repeat "" (Nat.min (length full) 1)) 1
    end.
Proof.
  unfold SplitN, genSplit.
  change (2 =? 0)%Z with false. change (String.eqb ":" "") with false.
  change (2 <? 0)%Z with false. change (Z.to_nat 2) with 2.
  cbv beta iota zeta.
  destruct full as [|c full]; [reflexivity|].
  replace (length (String c full) + 1 <? 2) with false
    by (symmetry; apply Nat.ltb_ge; cbn; lia).
  change (2 - 1) with 1. rewrite genSplit_loop_S.
  destruct (Index (String c full) ":") as [i|].
  - cbn [length]. now rewrite Nat.add_0_r.
  - cbn [length]. now destruct (length full).
Qed.

(** What [parseBasicString] does, from what it finds after the second word
    has been cut out: the decoder's error, a panic when the decoded text
    has no colon, the two sides of the first colon otherwise. *)
Lemma parseBasicString_word header w :
  index (Split header " ") 1 = Returns w ->
  parseBasicString header =
  match base64.DecodeString w with
  | (_, Some e) => Returns ("", "", Some e)
  | (full, None) =>
      match Index full ":" with
      | None => Panics (IndexOutOfRange 1 1)
      | Some i => Returns (to i full, from (i + 1) full, None)
      end
  end.
Proof.
  intros Hw. unfold parseBasicString.
  assert ((len (Split header " ") <? 2) = false) as ->.
  { unfold index in Hw.
    destruct (Nat.ltb_spec 1 (len (Split header " "))); [|discriminate].
    apply Nat.ltb_ge. lia. }
  rewrite Hw. cbn [bind].
  destruct (base64.DecodeString w) as [full [e|]]; [reflexivity|].
  rewrite SplitN_colon.
  destruct (Index full ":") as [i|]; reflexivity.
Qed.

(** The two sides of the first colon. *)
Lemma parse_first_colon header w user pass :
  secondWord header w ->
  base64.DecodeString w = (user ++ ":" ++ pass, None) ->
  CountByte user ":" = 0 ->
  parseBasicString header = Returns (user, pass, None).
Proof.
  intros Hw Hd Hu.
  rewrite (parseBasicString_word header w (Split_second_word _ _ Hw)), Hd.
  cbn [append]. rewrite (Index_byte_cut ":" user pass Hu).
  rewrite to_length.
  pose proof (from_append user 1 (String ":" pass)) as F. cbn [from] in F.
  now rewrite F.
Qed.

(** Without a space in the header there is no second word. *)
Lemma no_auth_string_iff header :
  parseBasicString header
  = Returns ("", "", Some (Errorf "No auth string found."))
  <-> Index header " " = None.
Proof.
  pose proof (Split_len header) as HL.
  split.
  - intros H.
    destruct (Index header " ") as [m|] eqn:E; [exfalso|reflexivity].
    assert (CountByte header " " <> 0) as HC.
    { intros HC. apply (Index_byte_none " ") in HC. congruence. }
    assert (exists w, index (Split header " ") 1 = Returns w) as [w Hw].
    { unfold index. rewrite HL.
      destruct (Nat.ltb_spec 1 (S (CountByte header " "))); [eauto|lia]. }
    rewrite (parseBasicString_word header w Hw) in H.
    destruct (base64.DecodeString w) as [full [e|]] eqn:Ed.
    + apply DecodeString_error in Ed as [n ->]. discriminate.
    + destruct (Index full ":"); discriminate.
  - intros H. apply (Index_byte_none " ") in H.
    unfold parseBasicString. rewrite HL, H. reflexivity.
Qed.

End auth_facts.

Import auth_facts.

(** X9.  [parseBasicString] answers "No auth string found." exactly for
    the headers that have no space. *)
Theorem X9_no_auth_string (header : string) :
  parseBasicString header
  = Returns ("", "", Some (Errorf "No auth string found."))
  <-> Index header " " = None.
Proof. apply no_auth_string_iff. Qed.

Lemma X9_no_auth_string_witness :
  parseBasicString "QWxhZGRpbjpvcGVuIHNlc2FtZQ=="
  = Returns ("", "", Some (Errorf "No auth string found.")).
Proof.
  apply (X9_no_auth_string "QWxhZGRpbjpvcGVuIHNlc2FtZQ=="). reflexivity.
Defined.

(** X10.  Whenever [parseBasicString] returns an error, the user and the
    password it returns are empty, and the error is either
    "No auth string found." (the header has no space) or the decoder's
    [CorruptInputError]. *)
Theorem X10_parse_error_is_clean (header user pass : string) (e : error) :
  parseBasicString header = Returns (user, pass, Some e) ->
  user = "" /\ pass = ""
  /\ ((e = Errorf "No auth string found." /\ Index header " " = None)
      \/ exists offset, e = CorruptInputError offset).
Proof.
  intros H. pose proof (Split_len header) as HL.
  destruct (Index header " ") as [m|] eqn:E.
  - assert (CountByte header " " <> 0) as HC.
    { intros HC. apply (Index_byte_none " ") in HC. congruence. }
    assert (exists w, index (Split header " ") 1 = Returns w) as [w Hw].
    { unfold index. rewrite HL.
      destruct (Nat.ltb_spec 1 (S (CountByte header " "))); [eauto|lia]. }
    rewrite (parseBasicString_word header w Hw) in H.
    destruct (base64.DecodeString w) as [full [e'|]] eqn:Ed.
    + injection H as <- <- <-.
      apply DecodeString_error in Ed. auto.
    + destruct (Index full ":"); discriminate.
  - pose proof (proj2 (no_auth_string_iff header) E) as H'.
    rewrite H' in H. injection H as <- <- <-. auto.
Qed.

Lemma X10_parse_error_is_clean_witness :
  parseBasicString "Basic dXNlcg"
  = Returns ("", "", Some (CorruptInputError 4))
  /\ "" = "" /\ "" = ""
  /\ ((CorruptInputError 4 = Errorf "No auth string found."
       /\ Index "Basic dXNlcg" " " = None)
      \/ exists offset, CorruptInputError 4 = CorruptInputError offset).
Proof.
  split; [reflexivity|].
  apply (X10_parse_error_is_clean "Basic dXNlcg" "" "" (CorruptInputError 4)).
  reflexivity.
Defined.

(** X11.  When the second word of the header decodes to a text with a
    colon, [parseBasicString] returns what is before the first colon as the
    user and all that follows it as the password (colons included), with
    no error. *)
Theorem X11_parse_first_colon (header w user pass : string) :
  secondWord header w ->
  base64.DecodeString w = (user ++ ":" ++ pass, None) ->
  CountByte user ":" = 0 ->
  parseBasicString header = Returns (user, pass, None).
Proof. apply parse_first_colon. Qed.

Lemma X11_parse_first_colon_witness :
  (secondWord "Basic dXNlcjpwYTpzcw==" "dXNlcjpwYTpzcw=="
   /\ base64.DecodeString "dXNlcjpwYTpzcw==" = ("user" ++ ":" ++ "pa:ss", None)
   /\ CountByte "user" ":" = 0)
  /\ parseBasicString "Basic dXNlcjpwYTpzcw=="
     = Returns ("user", "pa:ss", None).
Proof.
  assert (secondWord "Basic dXNlcjpwYTpzcw==" "dXNlcjpwYTpzcw==") as Hw.
  { exists "Basic", "". repeat split. now left. }
  split; [repeat split; exact Hw|].
  apply (X11_parse_first_colon
           "Basic dXNlcjpwYTpzcw==" "dXNlcjpwYTpzcw==" "user" "pa:ss" Hw);
    reflexivity.
Defined.

(** X12.  [parseBasicString] looks at the second word of the header only:
    two headers with the same second word give the same result, whatever
    the first word (the scheme) and whatever follows the second. *)
Theorem X12_parse_second_word_only (header1 header2 w : string) :
  secondWord header1 w -> secondWord header2 w ->
  parseBasicString header1 = parseBasicString header2.
Proof.
  intros H1 H2.
  now rewrite (parseBasicString_word header1 w (Split_second_word _ _ H1)),
              (parseBasicString_word header2 w (Split_second_word _ _ H2)).
Qed.

Lemma X12_parse_second_word_only_witness :
  (secondWord "Basic dXNlcjpwYXNz" "dXNlcjpwYXNz"
   /\ secondWord "Bearer dXNlcjpwYXNz and more" "dXNlcjpwYXNz")
  /\ parseBasicString "Basic dXNlcjpwYXNz"
     = parseBasicString "Bearer dXNlcjpwYXNz and more".
Proof.
  assert (secondWord "Basic dXNlcjpwYXNz" "dXNlcjpwYXNz") as H1.
  { exists "Basic", "". repeat split. now left. }
  assert (secondWord "Bearer dXNlcjpwYXNz and more" "dXNlcjpwYXNz") as H2.
  { exists "Bearer", " and more". repeat split. right. now exists "and more". }
  split; [split; assumption|].
  apply (X12_parse_second_word_only _ _ _ H1 H2).
Defined.

(** X13.  [BasicAuth.Authenticate] on a header whose second word decodes
    to [user:pass] asks the user database about exactly that user and that
    password, and returns its answer, boolean and error, unchanged. *)
Theorem X13_BasicAuth_asks_database
        (a : BasicAuth) (data w user pass : string) :
  secondWord data w ->
  base64.DecodeString w = (user ++ ":" ++ pass, None) ->
  CountByte user ":" = 0 ->
  BasicAuth_Authenticate a data = Returns (IsValid (Users a) user pass).
Proof.
  intros Hw Hd Hu. unfold BasicAuth_Authenticate.
  now rewrite (parse_first_colon data w user pass Hw Hd Hu).
Qed.

Lemma X13_BasicAuth_asks_database_witness :
  (secondWord "Basic QWxhZGRpbjpvcGVuIHNlc2FtZQ=="
              "QWxhZGRpbjpvcGVuIHNlc2FtZQ=="
   /\ base64.DecodeString "QWxhZGRpbjpvcGVuIHNlc2FtZQ=="
      = ("Aladdin" ++ ":" ++ "open sesame", None)
   /\ CountByte "Aladdin" ":" = 0)
  /\ BasicAuth_Authenticate {| Users := sampleUsers |}
                            "Basic QWxhZGRpbjpvcGVuIHNlc2FtZQ=="
     = Returns (true, None).
Proof.
  assert (secondWord "Basic QWxhZGRpbjpvcGVuIHNlc2FtZQ=="
                     "QWxhZGRpbjpvcGVuIHNlc2FtZQ==") as Hw.
  { exists "Basic", "". repeat split. now left. }
  split; [repeat split; exact Hw|].
  apply (X13_BasicAuth_asks_database
           {| Users := sampleUsers |} _ _ "Aladdin" "open sesame" Hw);
    reflexivity.
Defined.

(** X14.  [BasicAuth.Authenticate] reports a header it cannot parse as
    false with an error that begins "Basic authentication parsing failed: "
    and goes on with the cause: "No auth string found." for a header with
    no space, the decoder's "illegal base64 data at input byte N" for a
    second word that is not base64.  The user database plays no part. *)
Theorem X14_BasicAuth_parse_failure (a : BasicAuth) (data : string) :
  (Index data " " = None ->
   BasicAuth_Authenticate a data
   = Returns (false,
              Some (Errorf ("Basic authentication parsing failed: "
                            ++ "No auth string found."))))
  /\ (forall w bytes e,
         secondWord data w ->
         base64.DecodeString w = (bytes, Some e) ->
         exists offset,
           BasicAuth_Authenticate a data
           = Returns (false,
                      Some (Errorf ("Basic authentication parsing failed: "
                                    ++ "illegal base64 data at input byte "
                                    ++ Itoa offset)))).
Proof.
  split.
  - intros H. apply no_auth_string_iff in H.
    unfold BasicAuth_Authenticate. now rewrite H.
  - intros w bytes e Hw Hd.
    pose proof (parseBasicString_word data w (Split_second_word _ _ Hw)) as H.
    rewrite Hd in H. apply DecodeString_error in Hd as [n ->].
    exists n. unfold BasicAuth_Authenticate. now rewrite H.
Qed.

Lemma X14_BasicAuth_parse_failure_witness :
  BasicAuth_Authenticate {| Users := sampleUsers |} "Basic"
  = Returns (false,
             Some (Errorf ("Basic authentication parsing failed: "
                           ++ "No auth string found."))).
Proof.
  apply (proj1 (X14_BasicAuth_parse_failure
                  {| Users := sampleUsers |} "Basic")).
  reflexivity.
Defined.

Module trim_facts.

Import strings strings_facts rounds_facts.

Lemma asciiSpace_isASCII c : asciiSpace c = true -> isASCII c = true.
Proof.
  unfold asciiSpace, isASCII, utf8.RuneSelf. intros H.
  apply Z.ltb_lt. apply orb_prop in H as [H|H].
  - apply andb_prop in H as [_ H]. apply Z.leb_le in H. lia.
  - apply Z.eqb_eq in H. lia.
Qed.

Lemma TrimSpace_start_blank b : forall t,
  blank b = true -> TrimSpace_start (b ++ t) = TrimSpace_start t.
Proof.
  induction b as [|c b IH]; intros t H; [reflexivity|].
  cbn [blank] in H. apply andb_prop in H as [Hc Hb].
  cbn [append TrimSpace_start].
  rewrite (asciiSpace_isASCII c Hc), Hc. cbn [negb]. now apply IH.
Qed.

Lemma blank_get b : forall k c,
  blank b = true -> String.get k b = Some c -> asciiSpace c = true.
Proof.
  induction b as [|d b IH]; intros k c H G; [discriminate|].
  cbn [blank] in H. apply andb_prop in H as [Hd Hb].
  destruct k as [|k]; cbn in G; [congruence|eauto].
Qed.

Lemma get_some k : forall s, k < length s -> exists c, String.get k s = Some c.
Proof.
  induction k as [|k IH]; intros [|d s] H; cbn in *; try lia; eauto.
  apply IH. lia.
Qed.

(** The second loop of [TrimSpace] walks back over trailing blanks. *)
Lemma TrimSpace_stop_blank s b k :
  blank b = true -> k <= length b ->
  TrimSpace_stop (length s + k) (s ++ b) = TrimSpace_stop (length s) (s ++ b).
Proof.
  intros Hb. induction k as [|k IH]; intros Hk.
  - now rewrite Nat.add_0_r.
  - replace (length s + S k) with (S (length s + k)) by lia.
    cbn [TrimSpace_stop].
    destruct (get_some k b) as [c Hc]; [lia|].
    rewrite (Nat.add_comm (length s) k).
    rewrite <- (append_correct2 s b k), Hc.
    pose proof (blank_get b k c Hb Hc) as Hs.
    rewrite (asciiSpace_isASCII c Hs), Hs. cbn [negb].
    rewrite (Nat.add_comm k (length s)). apply IH. lia.
Qed.

Lemma visible_get w : forall k c,
  visible w = true -> String.get k w = Some c ->
  isASCII c = true /\ asciiSpace c = false.
Proof.
  induction w as [|d w IH]; intros k c H G; [discriminate|].
  cbn [visible] in H. apply andb_prop in H as [H Hw].
  apply andb_prop in H as [Ha Hs]. apply negb_true_iff in Hs.
  destruct k as [|k]; cbn in G; [injection G as <-; auto|eauto].
Qed.

(** [TrimSpace] takes the blanks off both ends of a text that begins and
    ends with a visible byte. *)
Lemma TrimSpace_surrounded b1 b2 c0 mid w :
  blank b1 = true -> blank b2 = true ->
  visible (String c0 "") = true -> visible w = true -> w <> "" ->
  TrimSpace (b1 ++ (String c0 mid ++ w) ++ b2) = String c0 mid ++ w.
Proof.
  intros H1 H2 H0 Hw Hn. unfold TrimSpace.
  rewrite TrimSpace_start_blank by assumption.
  cbn [visible] in H0. rewrite andb_true_r in H0.
  apply andb_prop in H0 as [Ha Hs]. apply negb_true_iff in Hs.
  cbn [append TrimSpace_start]. rewrite Ha, Hs. cbn [negb].
  change (String c0 ((mid ++ w) ++ b2)) with ((String c0 mid ++ w) ++ b2).
  set (s := String c0 mid ++ w).
  rewrite length_append, TrimSpace_stop_blank by auto.
  assert (exists n c, length s = S n /\ String.get n (s ++ b2) = Some c
                      /\ isASCII c = true /\ asciiSpace c = false)
    as (n & c & Hl & Hg & Hca & Hcs).
  { destruct w as [|d w]; [congruence|].
    destruct (get_some (length w) (String d w)) as [c Hc]; [cbn; lia|].
    destruct (visible_get _ _ _ Hw Hc) as [Hca Hcs].
    exists (length (String c0 mid) + length w), c.
    subst s. rewrite length_append. cbn [length]. split; [lia|].
    split; [|auto].
    rewrite <- append_correct1
      by (rewrite length_append; cbn [length]; lia).
    rewrite (Nat.add_comm _ (length w)).
    now rewrite <- (append_correct2 (String c0 mid) (String d w)). }
  rewrite Hl. cbn [TrimSpace_stop]. rewrite Hg, Hca, Hcs. cbn [negb].
  rewrite <- Hl. apply to_length.
Qed.

Lemma TrimSpace_blank b : blank b = true -> TrimSpace b = "".
Proof.
  intros Hb. unfold TrimSpace.
  rewrite <- (append_empty_r b), TrimSpace_start_blank by assumption.
  reflexivity.
Qed.

Lemma visible_no_space w : visible w = true -> CountByte w " " = 0.
Proof.
  induction w as [|c w IH]; cbn [visible CountByte]; intros H;
    [reflexivity|].
  apply andb_prop in H as [H Hw]. apply andb_prop in H as [_ Hs].
  apply negb_true_iff in Hs. rewrite (IH Hw).
  destruct (Ascii.eqb_spec c " ") as [->|]; [discriminate|reflexivity].
Qed.

(** The loops of [TrimLeftFunc] and [lastIndexFunc] have rounds enough:
    a round takes one rune, at least one byte. *)
Lemma TrimLeftFunc_loop_rounds f f1 : forall f2 s,
  length s <= f1 -> length s <= f2 ->
  TrimLeftFunc_loop f1 s f = TrimLeftFunc_loop f2 s f.
Proof.
  induction f1 as [|f1 IH]; intros [|f2] [|c s] H1 H2;
    cbn [length] in *; try lia; try reflexivity.
  cbn [TrimLeftFunc_loop].
  pose proof (DecodeRune_width c s) as W. cbn [length] in W.
  destruct (utf8.DecodeRuneInString (String c s)) as [r n]. cbn [snd] in W.
  destruct (f r); [|reflexivity].
  apply IH; rewrite length_from; cbn [length]; lia.
Qed.

Lemma length_to n : forall s, length (to n s) = Nat.min n (length s).
Proof. induction n; destruct s; cbn; auto. Qed.

Lemma DecodeLastRune_width s :
  s <> "" ->
  1 <= snd (utf8.DecodeLastRuneInString s) <= length s.
Proof.
  intros Hs. unfold utf8.DecodeLastRuneInString.
  destruct (String.get (length s - 1) s) as [last|] eqn:G.
  2: { destruct s as [|c s]; [congruence|].
       destruct (get_some (length s) (String c s)) as [x Hx]; [cbn; lia|].
       replace (length (String c s) - 1) with (length s) in G
         by (cbn [length]; lia).
       congruence. }
  assert (1 <= length s) as L by (destruct s; [congruence|cbn; lia]).
  destruct (utf8.byte_val last <? utf8.RuneSelf)%Z; [cbn; lia|].
  match goal with
  | |- context [utf8.DecodeRuneInString ?t] =>
      destruct (utf8.DecodeRuneInString t) as [r size]
  end.
  match goal with
  | |- context [negb (?a + size =? length s)] =>
      destruct (Nat.eqb_spec (a + size) (length s)) as [E|E];
      cbn [negb snd]; [|lia];
      destruct size; [|lia]
  end.
  exfalso. rewrite Nat.add_0_r in E.
  match type of E with
  | (if ?c then 0 else Z.to_nat ?z) = _ =>
      assert (z <= Z.of_nat (length s) - 2)%Z as B; [|destruct c; lia]
  end.
  generalize (Z.of_nat (length s) - 2)%Z as start.
  generalize (Z.of_nat (length s - utf8.UTFMax)) as lim.
  generalize utf8.UTFMax as steps.
  induction steps as [|steps IH]; intros lim start; cbn [utf8.scanBack];
    [lia|].
  destruct (start <? lim)%Z; [lia|].
  destruct (String.get (Z.to_nat start) s) as [b|]; [|lia].
  destruct (utf8.RuneStart b); [lia|].
  specialize (IH lim (start - 1)%Z). lia.
Qed.

Lemma lastIndexFunc_loop_rounds f s f1 : forall f2 i,
  i <= length s -> i <= f1 -> i <= f2 ->
  lastIndexFunc_loop f1 s i f = lastIndexFunc_loop f2 s i f.
Proof.
  induction f1 as [|f1 IH]; intros [|f2] [|i] Hs H1 H2;
    try lia; try reflexivity.
  cbn [lastIndexFunc_loop Nat.eqb].
  assert (to (S i) s <> "") as Hn.
  { intros E. apply (f_equal length) in E. rewrite length_to in E.
    change (length "") with 0 in E. lia. }
  pose proof (DecodeLastRune_width _ Hn) as W. rewrite length_to in W.
  destruct (utf8.DecodeLastRuneInString (to (S i) s)) as [r size].
  cbn [snd] in W. destruct (negb (f r)); [reflexivity|].
  apply IH; lia.
Qed.

(** The trimming on runes: a no-break space (C2 A0) is trimmed on both
    sides, a letter beyond ASCII stays, and a byte that is no rune is no
    space. *)
Example TrimSpace_runes :
  let nbsp := String (ascii_of_nat 194) (String (ascii_of_nat 160) "") in
  let e := String (ascii_of_nat 195) (String (ascii_of_nat 169) "") in
  let stray := String (ascii_of_nat 160) "" in
  TrimSpace (nbsp ++ " a b " ++ nbsp ++ " ") = "a b"
  /\ TrimSpace (" a " ++ e ++ " " ++ nbsp) = "a " ++ e
  /\ TrimSpace (" " ++ e ++ " ") = e
  /\ TrimSpace (stray ++ " x ") = stray ++ " x"
  /\ TrimSpace (" x " ++ stray ++ " ") = "x " ++ stray.
Proof. vm_compute. repeat split. Qed.

End trim_facts.

Import trim_facts.

(** X15.  [HTTPAuth.Authenticate] leaves the response untouched when it
    returns true, and when it returns false it has sent exactly one
    challenge: the header WWW-Authenticate with the realm of [h], then the
    error "Authentication Required" with status 401. *)
Theorem X15_challenge_iff_false
        (h : HTTPAuth) (res res' : ResponseWriter) (req : http_Request)
        (ok : bool) :
  HTTPAuth_Authenticate h res req = Returns (ok, res') ->
  res' = if ok then res else (res ++ challenge (Realm h))%list.
Proof.
  unfold HTTPAuth_Authenticate. intros H.
  destruct (_ || _); [now injection H as <- <-|].
  destruct (auths h "basic") as [authn|]; [|now injection H as <- <-].
  destruct (Authenticate authn _) as [[[] err]|x]; cbn in H;
    [| |discriminate]; now injection H as <- <-.
Qed.

Lemma X15_challenge_iff_false_witness :
  HTTPAuth_Authenticate (NewBasicHTTPAuth sampleUsers) []
                        (requestWith "Basic dXNlcjpwYXNz")
  = Returns (false, challenge "secret")
  /\ challenge "secret" = ([] ++ challenge "secret")%list.
Proof.
  split; [reflexivity|].
  apply (X15_challenge_iff_false
           (NewBasicHTTPAuth sampleUsers) [] (challenge "secret")
           (requestWith "Basic dXNlcjpwYXNz") false).
  reflexivity.
Defined.

(** X16.  With the provider that [NewBasicHTTPAuth] registers,
    [HTTPAuth.Authenticate] returns true exactly when the trimmed
    Authorization header contains "Basic ", parses to a user and a password
    with no error, and the user database answers true for them; an error
    the database returns beside its answer is not looked at. *)
Theorem X16_authenticated_iff
        (pwdb : UserPasswordLookup) (res res' : ResponseWriter)
        (req : http_Request) :
  HTTPAuth_Authenticate (NewBasicHTTPAuth pwdb) res req = Returns (true, res')
  <-> res' = res
      /\ Contains (authorization req) "Basic " = true
      /\ exists user pass,
           parseBasicString (authorization req) = Returns (user, pass, None)
           /\ fst (IsValid pwdb user pass) = true.
Proof.
  unfold HTTPAuth_Authenticate, authorization.
  set (authz := TrimSpace (Header_Get req "Authorization")).
  assert (Contains authz "Basic " = true -> (length authz =? 0) = false)
    as Hne by (destruct authz; [discriminate|reflexivity]).
  cbn [NewBasicHTTPAuth auths Realm String.eqb Ascii.eqb Bool.eqb
       BasicAuth_AuthN Authenticate].
  unfold BasicAuth_Authenticate. cbn [Users].
  destruct (Contains authz "Basic ") eqn:EC.
  2: { rewrite orb_true_r. split; [discriminate|]. intros (_ & H & _).
       discriminate. }
  rewrite (Hne eq_refl). cbn [orb negb].
  destruct (parseBasicString authz) as [[[user pass] [e|]]|x]; cbn [bind].
  - split; [discriminate|]. intros (_ & _ & u & p & H & _). discriminate.
  - destruct (IsValid pwdb user pass) as [ok err] eqn:EV.
    destruct ok; cbn [negb].
    + split.
      * intros H. injection H as <-. repeat split.
        exists user, pass. now rewrite EV.
      * intros (-> & _). reflexivity.
    + split; [discriminate|].
      intros (_ & _ & u & p & H & Hv). injection H as <- <-.
      rewrite EV in Hv. discriminate.
  - split; [discriminate|]. intros (_ & _ & u & p & H & _). discriminate.
Qed.

Lemma X16_authenticated_iff_witness :
  HTTPAuth_Authenticate (NewBasicHTTPAuth sampleUsers) []
    (requestWith " Basic QWxhZGRpbjpvcGVuIHNlc2FtZQ== ")
  = Returns (true, []).
Proof.
  apply (X16_authenticated_iff sampleUsers [] []
           (requestWith " Basic QWxhZGRpbjpvcGVuIHNlc2FtZQ== ")).
  repeat split. exists "Aladdin", "open sesame". split; reflexivity.
Defined.

(** X17.  A request whose Authorization header is absent, empty or made of
    blanks only is challenged, with no provider consulted: the result is
    false and the challenge, whatever providers [h] holds. *)
Theorem X17_blank_header_challenged
        (h : HTTPAuth) (res : ResponseWriter) (req : http_Request) :
  blank (Header_Get req "Authorization") = true ->
  HTTPAuth_Authenticate h res req
  = Returns (false, (res ++ challenge (Realm h))%list).
Proof.
  intros H. unfold HTTPAuth_Authenticate.
  now rewrite (TrimSpace_blank _ H).
Qed.

Lemma X17_blank_header_challenged_witness :
  blank (Header_Get (requestWith "") "Authorization") = true
  /\ HTTPAuth_Authenticate (NewBasicHTTPAuth sampleUsers) []
                           (requestWith "")
     = Returns (false, ([] ++ challenge "secret")%list).
Proof.
  split; [reflexivity|].
  apply (X17_blank_header_challenged
           (NewBasicHTTPAuth sampleUsers) [] (requestWith "")).
  reflexivity.
Defined.

(** The trimmed header of a request whose Authorization value is the word
    Basic, a space and a visible word, between blanks. *)
Lemma authorization_basic req b1 b2 w :
  blank b1 = true -> blank b2 = true -> visible w = true -> w <> "" ->
  Header_Get req "Authorization" = b1 ++ ("Basic " ++ w) ++ b2 ->
  authorization req = "Basic " ++ w
  /\ secondWord ("Basic " ++ w) w.
Proof.
  intros H1 H2 Hw Hn Hh. unfold authorization. rewrite Hh. split.
  - now apply (TrimSpace_surrounded b1 b2 "B" "asic " w).
  - exists "Basic", "". rewrite append_empty_r.
    repeat split; [now apply visible_no_space|now left].
Qed.

(** X18.  End to end: for an Authorization header that is the word Basic, a
    space and a base64 word decoding to [user:pass] (blanks around it do
    not matter), [HTTPAuth.Authenticate] as built by [NewBasicHTTPAuth]
    returns true with the response untouched when the user database
    answers true for that user and password, and otherwise returns false
    after the challenge for the realm "secret". *)
Theorem X18_basic_header_end_to_end
        (pwdb : UserPasswordLookup) (res : ResponseWriter)
        (req : http_Request) (b1 b2 w user pass : string) :
  blank b1 = true -> blank b2 = true -> visible w = true -> w <> "" ->
  Header_Get req "Authorization" = b1 ++ ("Basic " ++ w) ++ b2 ->
  base64.DecodeString w = (user ++ ":" ++ pass, None) ->
  CountByte user ":" = 0 ->
  HTTPAuth_Authenticate (NewBasicHTTPAuth pwdb) res req
  = Returns (if fst (IsValid pwdb user pass) then (true, res)
             else (false, (res ++ challenge "secret")%list)).
Proof.
  intros H1 H2 Hw Hn Hh Hd Hu.
  destruct (authorization_basic req b1 b2 w H1 H2 Hw Hn Hh) as [Ha Hs].
  unfold HTTPAuth_Authenticate. fold (authorization req). rewrite Ha.
  cbn [append length Nat.eqb orb].
  change (Contains (String "B" _) "Basic ") with true. cbn [negb].
  cbn [NewBasicHTTPAuth auths Realm String.eqb Ascii.eqb Bool.eqb
       BasicAuth_AuthN Authenticate].
  unfold BasicAuth_Authenticate. cbn [Users].
  change (String "B" (String "a" (String "s" (String "i" (String "c"
            (String " " w)))))) with ("Basic " ++ w).
  rewrite (parse_first_colon _ w user pass Hs Hd Hu). cbn [bind].
  now destruct (IsValid pwdb user pass) as [[] err].
Qed.

Lemma X18_basic_header_end_to_end_witness :
  (blank " " = true /\ blank "  " = true
   /\ visible "QWxhZGRpbjpvcGVuIHNlc2FtZQ==" = true
   /\ base64.DecodeString "QWxhZGRpbjpvcGVuIHNlc2FtZQ=="
      = ("Aladdin" ++ ":" ++ "open sesame", None))
  /\ HTTPAuth_Authenticate (NewBasicHTTPAuth sampleUsers) []
       (requestWith (" " ++ ("Basic " ++ "QWxhZGRpbjpvcGVuIHNlc2FtZQ==")
                     ++ "  "))
     = Returns (true, []).
Proof.
  split; [repeat split|].
  apply (X18_basic_header_end_to_end sampleUsers []
           (requestWith (" " ++ ("Basic " ++ "QWxhZGRpbjpvcGVuIHNlc2FtZQ==")
                         ++ "  "))
           " " "  " "QWxhZGRpbjpvcGVuIHNlc2FtZQ==" "Aladdin" "open sesame");
    try reflexivity.
  discriminate.
Defined.



(** X20.  [Resolve] matches verbed paths only: a pattern without glob
    metacharacters and without a space is never what [Resolve] returns,
    whatever the request and the other patterns, since the descriptor it
    builds has a space. *)
Theorem X20_Resolve_needs_verb
        (patterns : list string) (req : Request) (P : string) :
  literal P = true -> CountByte P " " = 0 ->
  Resolve (NewResolver patterns) req <> Returns (P, None).
Proof.
  intros HL HP H. unfold Resolve in H.
  apply success_matches in H.
  apply (proj1 (proj1 (literal_pattern_exact P _ HL))) in H.
  apply (f_equal (fun s => CountByte s " ")) in H.
  rewrite CountByte_append in H. cbn in H. lia.
Qed.

Lemma X20_Resolve_needs_verb_witness :
  (literal "/loomings" = true /\ CountByte "/loomings" " " = 0)
  /\ Resolve (NewResolver ["/loomings"; "**"])
             {| Method := ""; URL := {| Path := "/loomings" |} |}
     <> Returns ("/loomings", None).
Proof.
  split; [split; reflexivity|].
  apply (X20_Resolve_needs_verb ["/loomings"; "**"]
           {| Method := ""; URL := {| Path := "/loomings" |} |} "/loomings");
    reflexivity.
Defined.

(** X21.  When no provider is registered under "basic",
    [HTTPAuth.Authenticate] challenges every request: it returns false
    after the challenge, whatever the header. *)
Theorem X21_no_provider_challenged
        (h : HTTPAuth) (res : ResponseWriter) (req : http_Request) :
  auths h "basic" = None ->
  HTTPAuth_Authenticate h res req
  = Returns (false, (res ++ challenge (Realm h))%list).
Proof.
  intros H. unfold HTTPAuth_Authenticate. rewrite H.
  now destruct (_ || _).
Qed.

Lemma X21_no_provider_challenged_witness :
  HTTPAuth_Authenticate {| Realm := "r"; auths := fun _ => None |} []
                        (requestWith "Basic dXNlcjpwYXNz")
  = Returns (false, ([] ++ challenge "r")%list).
Proof.
  apply (X21_no_provider_challenged
           {| Realm := "r"; auths := fun _ => None |} []
           (requestWith "Basic dXNlcjpwYXNz")).
  reflexivity.
Defined.

(** X22.  An any-verb subtree pattern, a star, a literal text [L] and
    "/**" (as the [* /enter/**] of the test), for a descriptor with at
    least as many slashes as [L]: it matches exactly the descriptors made
    of bytes other than a slash, then [L], then nothing or a slash and
    anything; it is passed over (no error) for the others. *)
Theorem X22_any_verb_subtree (L D : string) :
  literal L = true -> L <> "" ->
  Count L "/" <= Count D "/" ->
  (matches (("*" ++ L) ++ "/**") D
   <-> exists v, noSlash v = true
                 /\ (D = v ++ L \/ exists rest, D = v ++ L ++ "/" ++ rest))
  /\ (matches (("*" ++ L) ++ "/**") D \/ rejects (("*" ++ L) ++ "/**") D).
Proof.
  intros HL HN HD.
  pose proof (star_literal_no_subtree L HL) as HI.
  assert (Count ("*" ++ L) "/" <= Count D "/") as HD' by exact HD.
  destruct (Match_star_literal_stars (L ++ "/") "*" "*" D) as (b & HG & Hb);
    [rewrite literal_append, HL; reflexivity
    |destruct L; discriminate|reflexivity|].
  assert (("*" ++ L) ++ "/**" = String "*" ((L ++ "/") ++ "**")) as HE
    by (cbn; f_equal; now rewrite append_assoc).
  split.
  - rewrite (subtree_pattern_glob ("*" ++ L) D HI HD'). split.
    + intros [(X & HX & _ & HM)|HM].
      * destruct (Match_star_literal L X HL HN) as (b' & HM' & Hb').
        cbn [append] in HM. rewrite HM' in HM. injection HM as ->.
        destruct (proj1 Hb' eq_refl) as (v & Hv & ->).
        exists v. split; [assumption|].
        destruct HX as [->|[rest ->]]; [now left|right].
        exists rest. now rewrite append_assoc.
      * rewrite HE, HG in HM. injection HM as ->.
        destruct (Hb eq_refl) as (v & t & Hv & ->).
        exists v. split; [assumption|]. right. exists t.
        now rewrite append_assoc.
    + intros (v & Hv & HX). left. exists (v ++ L). split; [|split].
      * destruct HX as [->|[rest ->]]; [now left|right].
        exists rest. now rewrite append_assoc.
      * cbn [Count append CountByte]. rewrite CountByte_append.
        apply noSlash_count in Hv. rewrite Hv. reflexivity.
      * destruct (Match_star_literal L (v ++ L) HL HN) as (b' & HM' & Hb').
        cbn [append]. rewrite HM'. f_equal. apply Hb'. eauto.
  - unfold matches, rejects.
    rewrite subtree_pattern_alone by assumption.
    assert (path.Match (("*" ++ L) ++ "/**") D = (b, None)) as ->
      by (rewrite HE; exact HG).
    destruct (Match_star_literal L (keep (CountByte ("*" ++ L) "/") D) HL HN)
      as (b' & HM' & _).
    cbn [append] in *. rewrite HM'.
    destruct b', b; auto.
Qed.

Lemma X22_any_verb_subtree_witness :
  (literal " /enter" = true /\ " /enter" <> ""
   /\ Count " /enter" "/" <= Count "GET /enter/ahab/to/him" "/"
   /\ Count " /enter" "/" <= Count "GET /entered/ahab" "/")
  /\ matches (("*" ++ " /enter") ++ "/**") "GET /enter/ahab/to/him"
  /\ rejects (("*" ++ " /enter") ++ "/**") "GET /entered/ahab".
Proof.
  assert (" /enter" <> "") as HN by discriminate.
  assert (Count " /enter" "/" <= Count "GET /enter/ahab/to/him" "/")
    as H1 by (cbn; lia).
  assert (Count " /enter" "/" <= Count "GET /entered/ahab" "/")
    as H2 by (cbn; lia).
  split; [repeat split; assumption|].
  split.
  - apply (X22_any_verb_subtree " /enter" "GET /enter/ahab/to/him"
             eq_refl HN H1).
    exists "GET". split; [reflexivity|]. right. now exists "ahab/to/him".
  - destruct (X22_any_verb_subtree " /enter" "GET /entered/ahab"
                eq_refl HN H2) as [_ [H|H]]; [discriminate H|exact H].
Defined.
